(* ===== verification/_CoqProject ===== *)
-Q . S2P
Prelude.v
Iterator.v
PartitionAll.v
Partition.v
Refinement.v
Toolz.v
Termination.v
Sharing.v
Pickle.v
