(* ===== verification/Prelude.v ===== *)
(** * A verification development for picklable-itertools' chunking iterators

    The program.  [src/picklable_itertools/extras.py] defines two iterator
    classes, [partition_all] and [partition], built on two collaborators of
    the package that are not under [src/]: the base class [BaseItertool]
    (which makes an iterator an ordinary Python object whose [__dict__] is
    its whole state, hence picklable) and the dispatch helper [_iter], which
    wraps any iterable into such an iterator (for a list, an iterator object
    holding the list and an index).  The parts interact only through the
    iterator protocol: [partition] owns a [partition_all], which owns the
    wrapped source, and each [__next__] pulls from the object it owns.

    Files (in dependency order, as listed in [_CoqProject]).
    - [Prelude] (this file): Python values ([pyval], only what the pad
      comparison needs), Python exceptions ([py_exc]), outcomes [res] of a
      call that may raise, and a state-and-exception monad [PyM] in which a
      raise keeps the mutations made before it, as Python does.  The hint
      database [pyiter] and the tactic [py_crush] collect the rewriting of
      the monad and the list lemmas the components share.
    - [Iterator]: the iterator protocol.  The class [PyIterator S A] is the
      interface every component is proved against: a state type [S] and its
      [__next__] as a [PyM S A].  It also holds [py_list] (Python's
      [list(it)], with fuel), the relation [yields] (k successful [next]
      calls), [py_advance] (k calls whatever they return), the class
      [Terminating] (a measure every successful call lowers) with the
      generic termination and eventual-exhaustion lemmas, the class
      [Denotes] (the spec's resumable-iterator contract, an abstraction
      function into the list still to be produced), the resumption
      theorem (the state alone determines the rest of
      the output, which is what pickling relies on), [seq_iterator], the
      model of [_iter] applied to a list (spec modelled: that code is not
      under [src/]), [_iter_itertool] (the helper on an object that is
      already an iterator: returned unchanged), and [scripted], an arbitrary iterator object given by
      the outcomes of its successive calls (used to exhibit faults and
      sources whose exhaustion is not permanent; a script of values only
      keeps the [Denotes] contract).
    - [PartitionAll]: [partition_all.__init__] and [__next__] (the
      [for ... xrange(n)] loop inside [try/except StopIteration] is the
      fixpoint [pull]); the reference chunking [chunks] (the abstract
      specification) and the refinement lemma that listing [partition_all]
      over any source that produces [xs] and is then exhausted for good
      gives [chunks n xs]; lists are the instance through [_iter].
    - [Partition]: [partition.__init__] and [__next__] on top of
      [partition_all], with the sentinel [_NO_PAD]; [finish] (what
      [__next__] makes of a list of chunks) and the refinement of a run of
      [partition] into [finish] of the run of its [partition_all], for any
      source; the floor and ceiling laws for the number of chunks, padding,
      the sentinel collision, and sources whose exhaustion is not permanent.
    - [Refinement]: the spec's resumable-iterator contract, the class
      [Denotes] of [Iterator] (a valid state stands for the list it has
      still to produce), kept by [partition_all] and [partition] over any
      source that keeps it: the abstraction functions
      [partition_all_denote] ([chunks] of what the source denotes) and
      [partition_denote] ([finish] of those chunks), with the instances
      built on the source's, so chunkers over chunkers are covered at any
      depth; validity is an invariant of every reachable state.
    - [Toolz]: the toolz original that the module docstring says this code
      reimplements: toolz's [partition] is [zip] or [zip_longest] over [n]
      references to one shared iterator, with a private sentinel tested by
      identity.  CPython's two C iterators are modelled as written
      ([zip_round], and [zl_slots] with its per-slot NULLing and
      [numactive] counter), with their [Denotes] instances over any source
      that keeps the contract.
    - [Termination]: the [Terminating] instances of [partition_all] and
      [partition], each with the measure of the source it owns, and the
      termination and eventual-exhaustion theorems built on them.
    - [Sharing]: the aliasing [_iter] allows: chunkers of any sizes and
      the caller's own reference over one source object, driven by an
      explicit schedule of calls ([handle_next], [run_schedule]).
    - [Pickle]: Python's default pickling, which [BaseItertool] relies on,
      as a snapshot [pobj] of the class and [__dict__]; the interface
      [Picklable] with its law [PickleRoundtrip] and an instance per class,
      each built on the instance of the object it owns; resumability of
      [partition] through a snapshot, against the reference output.

    Theorems, by group (claim ids C1-C34).
    - [partition_all] over a list or any source that produces [xs] and is
      then exhausted: refinement into [chunks] (C1), concatenation (C2),
      chunk lengths (C3), each branch of [__next__] (C6), invariant of
      reachable states (C10), permanent exhaustion (C11), chunk bounds for
      any source (C17), chunkers over chunkers (C18).
    - [partition]: floor (C4) and ceiling (C5) laws, each branch of
      [__next__] (C7), permanent exhaustion on lists (C14), lockstep
      equivalence with padding every chunk of [partition_all] (C20),
      outputs are [n]-tuples for any source (C21), eventual exhaustion on
      lists (C22), and without a pad lockstep equivalence with CPython's
      [itertools.takewhile] over [partition_all] (C23).
    - Refinement of the resumable-iterator contract: [partition_all] (C24)
      and [partition] (C25) over any source that keeps it, [partition_all]
      over [partition] (C26), the invariant that along any run the tuples
      produced followed by what the state still denotes are the fresh
      object's output, so no tuple is repeated, skipped or reordered
      (C27), and [n]-tuples all along any run (C28).
    - Termination for any source with a measure, the class [Terminating]
      of [Iterator] with an instance per component built on the instance
      of its source (C16, C19).
    - Errors and edge cases: non-positive [n] for [partition_all] (C8) and
      [partition] (C30), upstream exceptions (C9), the sentinel compared
      by equality (C12), a source that raises [StopIteration] and then
      resumes (C13).
    - Sharing the source: whatever the schedule of calls through chunkers
      and the caller's reference, no element is lost, duplicated or
      reordered (C29).
    - Resumability through pickling: the restored object lists exactly
      the rest of the reference output (C15).
    - Against the toolz original: the same tuples with any pad other
      than ['__no_pad__'] (C31) and without a pad (C32), over any source
      that keeps the contract; one tuple fewer for the [str] pad
      ['__no_pad__'] (C33); after an upstream fault toolz is dead while
      [partition] pulls again (C34).

    Modelling choices.  Python integers are [Z]; [xrange(n)] runs
    [Z.to_nat n] times, which is zero for [n <= 0] as in Python.  A tuple
    or list of elements is a [list A].  An element type is a parameter [A];
    the pad comparison [self._pad != self._NO_PAD] needs an equality on it,
    taken as an [EqDecision A] instance, and the [str] sentinel must be a
    value of [A], given by the class [PyStrValue] ([PyStr] for [pyval]).  Exhaustion is the exception
    [StopIteration]; any other exception is [PyException name].  [list(it)]
    is [py_list] with fuel; every theorem that says it returns gives the
    fuel explicitly (the length of the source plus one suffices for both
    chunkers), so totality is proved, not assumed.

    Not modelled: the wire format of pickle and [BaseItertool]'s Python 2/3
    [next]/[__next__] aliasing (pure plumbing); [_iter]'s dispatch on other
    iterable kinds (only lists and already-wrapped iterators are modelled:
    the dispatch code is not in the repository);
    [TypeError] for a non-integer [n].  [six] is a compatibility library:
    [six.moves.xrange] is taken as Python 3's [range], which accepts any
    int; Python 2's [xrange] raises [OverflowError] for an [n] beyond the
    C [long] range, and that bound is not modelled.  [partition] over a
    [partition]: the outer pad is compared with the [str] sentinel, and a
    model of that comparison between a tuple and a [str] needs a universe
    of Python values the element type does not have; [partition_all] over
    [partition] (C26) and over [partition_all] (C18) are covered.

    toolz's [partition_all] (a generator over [zip_longest] whose code
    changed across toolz versions) is not taken as a reference; [chunks]
    is. *)

From stdpp Require Import base list strings.
From Stdlib Require Import ZArith Lia.

(** ** Python values and exceptions *)

(** The values the pad comparison of [partition] can meet: [None], ints
    and strs.  Python's [==] on these is structural. *)
Inductive pyval :=
| PyNone
| PyInt (z : Z)
| PyStr (s : string).

#[export] Instance pyval_eq_dec : EqDecision pyval.
Proof. solve_decision. Defined.

(** How a Python [str] lives among the values of an element type: a pad
    value is compared with the [str] sentinel of [partition], so the
    element type must be able to hold that [str]. *)
Class PyStrValue (A : Type) := py_str : string -> A.

#[export] Instance pyval_str : PyStrValue pyval := PyStr.

(** Exceptions: [StopIteration] is the protocol's exhaustion signal. *)
Inductive py_exc :=
| StopIteration
| PyException (name : string).

#[export] Instance py_exc_eq_dec : EqDecision py_exc.
Proof. solve_decision. Defined.

(** The outcome of a call: a returned value or a raised exception. *)
Inductive res (A : Type) :=
| Ok (a : A)
| Raise (e : py_exc).
Arguments Ok {A} a.
Arguments Raise {A} e.

(** Map the returned value of an outcome; an exception is kept. *)
Definition res_map {A B} (f : A -> B) (r : res A) : res B :=
  match r with
  | Ok a => Ok (f a)
  | Raise e => Raise e
  end.

(** ** The state-and-exception monad *)

(** A computation on an object state [S]: an exception does not roll back
    the mutations made before it. *)
Definition PyM (S A : Type) : Type := S -> res A * S.

Definition py_ret {S A} (a : A) : PyM S A := fun s => (Ok a, s).
Definition py_raise {S A} (e : py_exc) : PyM S A := fun s => (Raise e, s).
Definition py_bind {S A B} (m : PyM S A) (k : A -> PyM S B) : PyM S B :=
  fun s => match m s with
           | (Ok a, s') => k a s'
           | (Raise e, s') => (Raise e, s')
           end.

(** Run a computation on the field of an object: [self.f.m()]. *)
Definition py_field {S T A} (get : S -> T) (set : T -> S -> S)
    (m : PyM T A) : PyM S A :=
  fun s => let '(r, t') := m (get s) in (r, set t' s).

Declare Scope py_scope.
Delimit Scope py_scope with py.
Notation "x <- m ;; k" := (py_bind m (fun x => k))
  (at level 100, m at next level, right associativity) : py_scope.
Notation "'raise' e" := (py_raise e) (at level 10) : py_scope.

(** ** Shared lemmas *)

Create HintDb pyiter.
Create Rewrite HintDb pyiter.

Section monad_laws.
Context {S A B : Type}.

Lemma py_bind_ret_l (a : A) (k : A -> PyM S B) s :
  py_bind (py_ret a) k s = k a s.
Proof. reflexivity. Qed.

Lemma py_bind_raise (e : py_exc) (k : A -> PyM S B) s :
  py_bind (py_raise e) k s = (Raise e, s).
Proof. reflexivity. Qed.

Lemma py_bind_ret_r (m : PyM S A) s : py_bind m py_ret s = m s.
Proof. unfold py_bind. by destruct (m s) as [[] ?]. Qed.
End monad_laws.

#[export] Hint Rewrite @py_bind_ret_l @py_bind_raise @py_bind_ret_r : pyiter.

(** List facts the chunking proofs share. *)
Section list_facts.
Context {A : Type}.

Lemma drop_nil_length (xs : list A) i : drop i xs = [] -> length xs <= i.
Proof. intros H. apply (f_equal length) in H. rewrite length_drop in H. simpl in H. lia. Qed.

(** A chunk of at most [k] elements taken at [i] ends where dropping [k]
    more elements after [i] starts. *)
Lemma drop_after_take (xs : list A) i k :
  drop (i + length (take k (drop i xs))) xs = drop k (drop i xs).
Proof.
  rewrite drop_drop, length_take, length_drop.
  destruct (decide (k <= length xs - i)).
  - by rewrite Nat.min_l.
  - rewrite !drop_ge; [done|lia|lia].
Qed.

Lemma take_nil_inv (xs : list A) k : 0 < k -> take k xs = [] -> xs = [].
Proof. destruct xs, k; simpl; by (lia || done). Qed.

Lemma length_concat_uniform k (cs : list (list A)) :
  Forall (fun c => length c = k) cs -> length (concat cs) = k * length cs.
Proof. induction 1; simpl; rewrite ?length_app; lia. Qed.

End list_facts.

(** The last of [m] full chunks and one chunk of [l] elements is full
    exactly when [k] divides the length. *)
Lemma last_chunk_full_iff k m l :
  0 < l <= k -> l = k <-> (k * m + l) mod k = 0.
Proof.
  intros Hl. split.
  - intros ->. replace (k * m + k) with ((m + 1) * k) by lia. apply Nat.Div0.mod_mul.
  - intros Hmod. destruct (decide (l = k)) as [|Hne]; [done|].
    rewrite Nat.add_comm, Nat.mul_comm, Nat.Div0.mod_add, Nat.mod_small in Hmod; lia.
Qed.

(** Counting chunks: [m] full chunks and a last one of [l] elements. *)
Lemma chunk_count_div k m l :
  0 < l <= k -> (k * m + l) / k = if decide (l = k) then S m else m.
Proof.
  intros Hl. case_decide; symmetry; apply (Nat.div_unique _ _ _ (if decide (l = k) then 0 else l));
    case_decide; lia.
Qed.

Lemma chunk_count_ceil k m l : 0 < l <= k -> (k * m + l + k - 1) / k = S m.
Proof. intros Hl. symmetry. apply (Nat.div_unique _ _ _ (l - 1)); lia. Qed.

Lemma chunk_short_mod k m l : 0 < l < k -> (k * m + l) mod k = l.
Proof. intros Hl. symmetry. apply (Nat.mod_unique _ _ m); lia. Qed.

#[export] Hint Rewrite @length_take @length_drop @length_app @length_replicate
  @drop_drop : pyiter.

(** [py_crush] unfolds the monad, normalises lengths and closes the
    arithmetic the chunkers produce. *)
Ltac py_crush :=
  repeat (unfold py_bind, py_ret, py_raise, py_field in *; simpl in *);
  autorewrite with pyiter in *; try lia; try done.
