(* ===== verification/Iterator.v ===== *)
(** * The iterator protocol

    The interface [PyIterator] every chunker is proved against: a state
    type and its [__next__].  On top of it: [py_list] (Python's [list(it)]
    with fuel), [yields] (a run of successful [next] calls, a labelled
    reflexive-transitive closure of the step), sticky exhaustion, the
    resumption theorem, termination by a measure ([Terminating]) and
    eventual exhaustion, the spec's resumable-iterator contract
    ([Denotes]: a valid state stands for the list it has still to produce)
    with its generic consequences, [_iter] on an object that is already an iterator,
    and two sources: [seq_iterator], which models what
    [_iter] returns for a list (its code is not under [src/], so it is
    modelled from the spec's contract), and [scripted], an arbitrary
    iterator object given by the outcomes of its successive calls. *)

From stdpp Require Import base list.
From Stdlib Require Import Lia.
From S2P Require Import Prelude.

(** [__next__] of an iterator whose whole state (its [__dict__]) is [St].
    [BaseItertool] gives every subclass [__iter__ = self], so the object
    is its own iterator and this one method is the protocol. *)
Class PyIterator (St A : Type) := py_next : PyM St A.
Arguments py_next {St A _} _.

(** Prepending produced elements to the outcome of the rest of a run. *)
Definition prepend {St A} (xs : list A) (o : res (list A) * St) : res (list A) * St :=
  match o with
  | (Ok l, s) => (Ok (xs ++ l), s)
  | (Raise e, s) => (Raise e, s)
  end.

Section protocol.
Context {St A : Type} `{!PyIterator St A}.

(** [list(it)]: call [next] until [StopIteration]; any other exception
    propagates and the partial list is lost.  [None] is "out of fuel". *)
Fixpoint py_list (fuel : nat) (s : St) : option (res (list A) * St) :=
  match fuel with
  | 0 => None
  | S f =>
      match py_next s with
      | (Ok x, s') => prepend [x] <$> py_list f s'
      | (Raise StopIteration, s') => Some (Ok [], s')
      | (Raise e, s') => Some (Raise e, s')
      end
  end.

(** [yields s xs s']: starting from [s], [length xs] calls of [next]
    return the elements of [xs] in order and leave the state [s']. *)
Inductive yields : St -> list A -> St -> Prop :=
| yields_nil s : yields s [] s
| yields_cons s x s' xs s'' :
    py_next s = (Ok x, s') -> yields s' xs s'' -> yields s (x :: xs) s''.

(** [reachable s0 s]: some sequence of [next] calls, whatever each
    returned, leads from [s0] to [s]. *)
Inductive reachable (s0 : St) : St -> Prop :=
| reach_init : reachable s0 s0
| reach_step s r s' : reachable s0 s -> py_next s = (r, s') -> reachable s0 s'.

(** Exhaustion that is permanent: [next] raises [StopIteration] and
    leaves the state as it was. *)
Definition exhausted (s : St) : Prop := py_next s = (Raise StopIteration, s).

Lemma prepend_app (xs ys : list A) (o : res (list A) * St) :
  prepend xs (prepend ys o) = prepend (xs ++ ys) o.
Proof. destruct o as [[] ?]; simpl; by rewrite ?app_assoc. Qed.

Lemma prepend_nil (o : res (list A) * St) : prepend [] o = o.
Proof. by destruct o as [[] ?]. Qed.

Lemma yields_app_inv s xs ys s'' :
  yields s (xs ++ ys) s'' -> exists s', yields s xs s' /\ yields s' ys s''.
Proof.
  revert s. induction xs as [|x xs IH]; intros s H; simpl in *; [by eexists; split; [constructor|]|].
  inversion H as [|? ? s1 ? ? Hn Hy]; subst.
  destruct (IH _ Hy) as (s' & H1 & H2). exists s'. split; [econstructor|]; done.
Qed.

(** Resumption: the state after a run of [next] calls determines all
    the rest of the output.  Listing the iterator from the start gives the
    elements already produced followed by what listing from the captured
    state gives.  This is what makes a pickled snapshot of the state (its
    [__dict__]) resume where the original would have continued. *)
Theorem py_list_resume s xs s' fuel :
  yields s xs s' ->
  py_list (length xs + fuel) s = prepend xs <$> py_list fuel s'.
Proof.
  induction 1 as [s|s x s' xs s'' Hnext _ IH]; simpl.
  - by destruct (py_list fuel s) as [o|]; simpl; rewrite ?prepend_nil.
  - rewrite Hnext, IH. destruct (py_list fuel s'') as [o|]; simpl; [|done].
    by rewrite prepend_app.
Qed.
End protocol.

(** ** Termination and eventual exhaustion *)

(** The state after [k] calls of [next], whatever each returned. *)
Fixpoint py_advance {St A} `{!PyIterator St A} (k : nat) (s : St) : St :=
  match k with
  | 0 => s
  | S k' => py_advance k' (py_next (A := A) s).2
  end.

(** The termination argument of an iterator: a measure that no call of
    [next] increases and every successful call decreases. *)
Class Terminating (St A : Type) `{!PyIterator St A} := {
  measure : St -> nat;
  measure_step s r s' : py_next s = (r, s') -> measure s' <= measure s;
  measure_ok s x s' : py_next s = (Ok x, s') -> measure s' < measure s
}.

Section termination.
Context {St A : Type} `{!PyIterator St A} `{!Terminating St A}.

(** [list(it)] returns within [measure s + 1] calls. *)
Lemma py_list_terminates fuel (s : St) :
  measure s < fuel -> exists o, py_list fuel s = Some o.
Proof.
  revert s. induction fuel as [|fuel IH]; intros s Hm; [lia|]. simpl.
  destruct (py_next s) as [[x|[]] s'] eqn:E; [|by eexists..].
  destruct (IH s') as [o ->]; [pose proof (measure_ok _ _ _ E); lia|]. by eexists.
Qed.

Lemma py_advance_exhausted_stable k (s : St) :
  exhausted (A := A) s -> py_advance (A := A) k s = s.
Proof. intros Hex. induction k as [|k IH]; simpl; [done|]. by rewrite Hex. Qed.

(** Eventual exhaustion: if along an invariant [P] every exception
    leaves the iterator exhausted for good, then after [measure s + 1]
    calls it is exhausted. *)
Lemma py_advance_exhausted (P : St -> Prop) k (s : St) :
  (forall s r s', P s -> py_next s = (r, s') -> P s') ->
  (forall s e s', P s -> py_next s = (Raise e, s') -> exhausted (A := A) s') ->
  P s -> measure s < k -> exhausted (A := A) (py_advance (A := A) k s).
Proof.
  intros Hinv Hraise. revert s. induction k as [|k IH]; intros s Hs Hm; [lia|]. simpl.
  destruct (py_next s) as [[x|e] s'] eqn:E; simpl.
  - apply IH; [by eapply Hinv|]. pose proof (measure_ok _ _ _ E). lia.
  - pose proof (Hraise _ _ _ Hs E) as Hex. by rewrite py_advance_exhausted_stable.
Qed.
End termination.

(** ** Iterators that denote a list

    The spec's contract of a resumable iterator: a valid state stands for
    the list of elements it has still to produce.  [next] on a state that
    denotes [x :: l] returns [x] and leaves a valid state that denotes
    [l]; on a state that denotes [[]] it raises [StopIteration] and leaves
    a valid state that still denotes [[]] (it may move, as [partition]
    does when it drops a short chunk).  This is a functional refinement of
    the abstract list iterator: [denote] is the abstraction function. *)
Definition denotes_step {St A} `{!PyIterator St A} (valid : St -> Prop)
    (denote : St -> list A) (s : St) : Prop :=
  match denote s with
  | [] => exists s', py_next s = (Raise StopIteration, s') /\ valid s' /\ denote s' = []
  | x :: l => exists s', py_next s = (Ok x, s') /\ valid s' /\ denote s' = l
  end.

Class Denotes (St A : Type) `{!PyIterator St A} := {
  valid : St -> Prop;
  denote : St -> list A;
  denote_step s : valid s -> denotes_step valid denote s
}.

Section denotes.
Context {St A : Type} `{!PyIterator St A} `{!Denotes St A}.

(** A valid state produces its denotation and ends in a valid state
    that denotes nothing. *)
Lemma denotes_yields (s : St) :
  valid s -> exists s', yields s (denote s) s' /\ valid s' /\ denote s' = [].
Proof.
  remember (denote s) as l eqn:El. revert s El.
  induction l as [|x l IH]; intros s El Hs; [by exists s; split_and!; [constructor| |]|].
  pose proof (denote_step s Hs) as Hst. unfold denotes_step in Hst. rewrite <- El in Hst.
  destruct Hst as (s1 & Hn & Hv1 & Hd1).
  destruct (IH s1) as (s2 & Hy & Hv2 & Hd2); [done|done|].
  exists s2. split_and!; [econstructor|..]; done.
Qed.

(** [list()] of a valid state returns its denotation, within
    [length (denote s) + 1] calls. *)
Lemma denotes_py_list (s : St) fuel :
  valid s -> length (denote s) < fuel ->
  exists s', py_list fuel s = Some (Ok (denote s), s') /\ valid s' /\ denote s' = [].
Proof.
  intros Hs Hf. destruct (denotes_yields s Hs) as (s1 & Hy & Hv1 & Hd1).
  pose proof (denote_step s1 Hv1) as Hst. unfold denotes_step in Hst. rewrite Hd1 in Hst.
  destruct Hst as (s2 & Hn & Hv2 & Hd2).
  replace fuel with (length (denote s) + S (fuel - length (denote s) - 1)) by lia.
  rewrite (py_list_resume _ _ _ _ Hy). simpl. rewrite Hn. simpl.
  exists s2. by rewrite app_nil_r.
Qed.
End denotes.

#[export] Hint Constructors yields reachable : pyiter.
#[export] Hint Rewrite @prepend_app @prepend_nil : pyiter.

(** ** [_iter] on a list

    The iterator object the dispatch helper builds for a sequence: the
    sequence and a position (the fields of its [__dict__]).  [__next__]
    returns the element at the position and advances it, or raises
    [StopIteration] once the position is past the end. *)
Module SeqIter.
Record seq_iterator (A : Type) := mk_seq_iterator {
  _sequence : list A;
  _position : nat
}.
Arguments mk_seq_iterator {A} _ _.
Arguments _sequence {A} _.
Arguments _position {A} _.

Definition seq_iterator_next {A} : PyM (seq_iterator A) A :=
  fun it =>
    match _sequence it !! _position it with
    | Some x => (Ok x, mk_seq_iterator (_sequence it) (S (_position it)))
    | None => (Raise StopIteration, it)
    end.

#[export] Instance seq_iterator_iter {A} : PyIterator (seq_iterator A) A :=
  seq_iterator_next.

(** [_iter(seq)] for a list. *)
Definition _iter {A} (xs : list A) : seq_iterator A := mk_seq_iterator xs 0.

Section seq_iterator_facts.
Context {A : Type}.
Implicit Types (xs : list A).

Lemma py_next_seq (it : seq_iterator A) : py_next it = seq_iterator_next it.
Proof. reflexivity. Qed.

Lemma seq_iterator_next_in xs i x :
  xs !! i = Some x ->
  py_next (mk_seq_iterator xs i) = (Ok x, mk_seq_iterator xs (S i)).
Proof. intros H. rewrite py_next_seq. unfold seq_iterator_next. simpl. by rewrite H. Qed.

(** Past the end, the list iterator is exhausted for good. *)
Lemma seq_iterator_exhausted xs i :
  length xs <= i -> exhausted (mk_seq_iterator xs i).
Proof.
  intros H. unfold exhausted. rewrite py_next_seq. unfold seq_iterator_next.
  simpl. by rewrite lookup_ge_None_2.
Qed.

(** [k] calls from position [i] produce the next [k] elements. *)
Lemma seq_iterator_yields xs i k :
  i + k <= length xs ->
  yields (mk_seq_iterator xs i) (take k (drop i xs)) (mk_seq_iterator xs (i + k)).
Proof.
  revert i. induction k as [|k IH]; intros i Hk.
  - rewrite Nat.add_0_r. constructor.
  - destruct (lookup_lt_is_Some_2 xs i) as [x Hx]; [lia|].
    rewrite (drop_S _ x) by done. simpl.
    econstructor; [by apply seq_iterator_next_in|].
    replace (i + S k) with (S i + k) by lia. apply IH. lia.
Qed.

End seq_iterator_facts.

(** The list iterator terminates: the measure is what is left of the list. *)
#[export] Program Instance seq_iterator_terminating {A} : Terminating (seq_iterator A) A := {
  measure it := length (_sequence it) - _position it
}.
Next Obligation.
  intros A [xs i] r s'. rewrite py_next_seq. unfold seq_iterator_next. simpl.
  destruct (xs !! i); intros [= _ <-]; simpl; lia.
Qed.
Next Obligation.
  intros A [xs i] x s'. rewrite py_next_seq. unfold seq_iterator_next. simpl.
  destruct (xs !! i) eqn:E; intros [= _ <-]. simpl.
  apply lookup_lt_Some in E. lia.
Qed.
(** The list iterator denotes what is left of its list. *)
Lemma seq_iterator_denotes_step {A} (it : seq_iterator A) :
  denotes_step (fun _ => True) (fun it => drop (_position it) (_sequence it)) it.
Proof.
  destruct it as [xs i]. unfold denotes_step. simpl.
  destruct (xs !! i) as [x|] eqn:Hx.
  - rewrite (drop_S _ x) by done. exists (mk_seq_iterator xs (S i)).
    split_and!; [by apply seq_iterator_next_in|done|done].
  - pose proof (lookup_ge_None_1 _ _ Hx) as Hi. rewrite drop_ge by done.
    exists (mk_seq_iterator xs i). split_and!; [by apply seq_iterator_exhausted|done|].
    simpl. by apply drop_ge.
Qed.

#[export] Instance seq_iterator_denotes {A} : Denotes (seq_iterator A) A := {|
  valid _ := True;
  denote it := drop (_position it) (_sequence it);
  denote_step it _ := seq_iterator_denotes_step it
|}.
End SeqIter.

(** [_iter(obj)] for an object that is already an iterator of the package
    (a [BaseItertool]): the object itself, so wrapping twice changes
    nothing and the two owners share one state. *)
Definition _iter_itertool {St} (it : St) : St := it.

(** ** An arbitrary iterator object

    Python lets [__next__] do anything: [scripted] is an iterator given by
    the outcomes of its successive calls.  When the script runs out it
    raises [StopIteration].  A script may raise [StopIteration] and later
    return values again, as a Python iterator may. *)
Module Scripted.
Definition scripted (A : Type) := list (res A).

Definition scripted_next {A} : PyM (scripted A) A :=
  fun sc => match sc with
            | [] => (Raise StopIteration, [])
            | r :: sc' => (r, sc')
            end.

#[export] Instance scripted_iter {A} : PyIterator (scripted A) A := scripted_next.

(** A scripted iterator terminates: every call consumes the script. *)
#[export] Program Instance scripted_terminating {A} : Terminating (scripted A) A := {
  measure sc := length sc
}.
Next Obligation. intros A [|r sc] r' s'; simpl; intros [= _ <-]; simpl; lia. Qed.
Next Obligation. intros A [|r sc] x s'; simpl; intros [= _ <-]; simpl; lia. Qed.
(** A script of returned values only denotes those values. *)
Definition scripted_values {A} (sc : scripted A) : list A :=
  omap (fun r => match r with Ok x => Some x | Raise _ => None end) sc.

Lemma scripted_denotes_step {A} (sc : scripted A) :
  Forall (fun r => exists x, r = Ok x) sc ->
  denotes_step (Forall (fun r => exists x, r = Ok x)) scripted_values sc.
Proof.
  unfold denotes_step. destruct 1 as [|r sc [x ->] Hsc]; simpl.
  - by exists [].
  - by exists sc.
Qed.

#[export] Instance scripted_denotes {A} : Denotes (scripted A) A := {|
  valid := Forall (fun r => exists x, r = Ok x);
  denote := scripted_values;
  denote_step := scripted_denotes_step
|}.
End Scripted.
