(* ===== verification/PartitionAll.v ===== *)
(** * [partition_all] (src/picklable_itertools/extras.py, lines 47-73)

    The object state is its [__dict__]: the chunk size [_n] and the wrapped
    source [_seq].  [__next__] pulls up to [_n] elements inside a
    [try/except StopIteration] and raises [StopIteration] itself when it
    pulled none.  The reference [chunks] is the abstract specification;
    [py_list_partition_all_seq] is the refinement of the object run over a
    list into it. *)

From stdpp Require Import base list strings.
From Stdlib Require Import ZArith Lia.
From S2P Require Import Prelude Iterator.
Import SeqIter Scripted.

Module PartitionAll.
Record partition_all (St : Type) := mk_partition_all {
  _n : Z;
  _seq : St
}.
Arguments mk_partition_all {St} _ _.
Arguments _n {St} _.
Arguments _seq {St} _.

Section ops.
Context {St A : Type} `{!PyIterator St A}.

(** [__init__(self, n, seq)]: [self._n = n; self._seq = _iter(seq)];
    the caller passes the already wrapped source. *)
Definition partition_all_init (n : Z) (seq : St) : partition_all St :=
  mk_partition_all n seq.

(** The body of the [try]: [for i in xrange(k): items.append(next(seq))]
    with [except StopIteration: pass].  Any other exception escapes,
    and the elements pulled so far are lost with [items]. *)
Fixpoint pull (k : nat) (items : list A) (seq : St) : res (list A) * St :=
  match k with
  | 0 => (Ok items, seq)
  | S k' =>
      match py_next seq with
      | (Ok x, seq') => pull k' (items ++ [x]) seq'
      | (Raise StopIteration, seq') => (Ok items, seq')
      | (Raise e, seq') => (Raise e, seq')
      end
  end.

Definition set_seq (seq : St) (self : partition_all St) : partition_all St :=
  mk_partition_all (_n self) seq.

(** [__next__]: [xrange(self._n)] runs [Z.to_nat _n] times (none when
    [_n <= 0]); an empty [items] raises [StopIteration], otherwise
    [tuple(items)] is returned. *)
Definition partition_all_next : PyM (partition_all St) (list A) :=
  fun self =>
    (items <- py_field _seq set_seq (pull (Z.to_nat (_n self)) []) ;;
     if decide (length items = 0) then raise StopIteration
     else py_ret items)%py self.

#[global] Instance partition_all_iter : PyIterator (partition_all St) (list A) :=
  partition_all_next.

Lemma py_next_partition_all (self : partition_all St) :
  py_next self = partition_all_next self.
Proof. reflexivity. Qed.
End ops.

(** [partition_all(n, seq)] on a list: [_iter] wraps it. *)
Definition partition_all_new {A} (n : Z) (xs : list A) :
    partition_all (seq_iterator A) :=
  partition_all_init n (_iter xs).

(** ** The abstract specification: consecutive slices of [k] elements *)
Section reference.
Context {A : Type}.

Fixpoint chunks_fuel (fuel k : nat) (xs : list A) : list (list A) :=
  match fuel, xs with
  | 0, _ | _, [] => []
  | S f, _ => take k xs :: chunks_fuel f k (drop k xs)
  end.

(** Each chunk removes at least one element, so [length xs] rounds of
    fuel are enough when [k > 0]. *)
Definition chunks (k : nat) (xs : list A) : list (list A) :=
  chunks_fuel (length xs) k xs.

Lemma chunks_fuel_stable k f f' xs :
  0 < k -> length xs <= f -> length xs <= f' ->
  chunks_fuel f k xs = chunks_fuel f' k xs.
Proof.
  revert f' xs. induction f as [|f IH]; intros [|f'] [|x xs] Hk Hf Hf';
    simpl in *; try done; try lia.
  f_equal. apply IH; rewrite ?length_drop; simpl; lia.
Qed.

Lemma chunks_nil k : chunks k [] = [].
Proof. done. Qed.

Lemma chunks_unfold k xs :
  0 < k -> xs <> [] -> chunks k xs = take k xs :: chunks k (drop k xs).
Proof.
  intros Hk Hxs. unfold chunks. destruct xs as [|x xs']; [done|]. simpl.
  f_equal. apply chunks_fuel_stable; rewrite ?length_drop; simpl; lia.
Qed.

(** Induction along the chunks: the principle the chunk proofs share. *)
Lemma chunks_ind k (P : list A -> list (list A) -> Prop) :
  0 < k -> P [] [] ->
  (forall xs, xs <> [] -> P (drop k xs) (chunks k (drop k xs)) ->
              P xs (take k xs :: chunks k (drop k xs))) ->
  forall xs, P xs (chunks k xs).
Proof.
  intros Hk Hnil Hcons xs. remember (length xs) as m eqn:Hm.
  revert xs Hm. induction m as [m IH] using lt_wf_ind. intros [|x xs'] ->.
  - apply Hnil.
  - rewrite chunks_unfold by done. apply Hcons; [done|].
    apply (IH (length (drop k (x :: xs')))); [|done].
    rewrite length_drop. simpl. lia.
Qed.

Lemma chunks_concat k xs : 0 < k -> concat (chunks k xs) = xs.
Proof.
  intros Hk. apply (chunks_ind k (fun xs cs => concat cs = xs)); [done|done|].
  intros ys _ IH. simpl. rewrite IH. apply take_drop.
Qed.

(** The shape of the chunking: full chunks, then one last chunk of
    1 to [k] elements. *)
Lemma chunks_shape k xs :
  0 < k -> xs <> [] ->
  exists full last, chunks k xs = full ++ [last] /\
    Forall (fun c => length c = k) full /\
    0 < length last <= k /\ length xs = k * length full + length last.
Proof.
  intros Hk. revert xs.
  apply (chunks_ind k (fun xs cs => xs <> [] -> exists full last, cs = full ++ [last] /\
    Forall (fun c => length c = k) full /\
    0 < length last <= k /\ length xs = k * length full + length last));
    [done|done|].
  intros xs Hne IHxs _.
  destruct (decide (drop k xs = [])) as [Hd|Hd].
  - exists [], (take k xs). rewrite Hd, chunks_nil. apply drop_nil_length in Hd.
    rewrite length_take. destruct xs as [|x xs']; [done|]. simpl in *.
    split_and!; [done|constructor|lia..].
  - destruct (IHxs Hd) as (full & last & -> & Hfull & Hlast & Hlen).
    exists (take k xs :: full), last. rewrite length_drop in Hlen.
    assert (k <= length xs) by (destruct (decide (k <= length xs)); [done|];
      exfalso; apply Hd, drop_ge; lia).
    split_and!; [done| |lia|lia|simpl; lia].
    constructor; [rewrite length_take; lia|done].
Qed.
Lemma length_chunks_le k xs : 0 < k -> length (chunks k xs) <= length xs.
Proof.
  intros Hk. apply (chunks_ind k (fun xs cs => length cs <= length xs)); [done|simpl; lia|].
  intros ys Hne IH. rewrite length_drop in IH. simpl.
  destruct ys; [done|simpl in *; lia].
Qed.
(** Only the last chunk can be short. *)
Lemma chunks_short_last k xs c cs :
  0 < k -> chunks k xs = c :: cs -> length c < k -> cs = [].
Proof.
  intros Hk. destruct (decide (xs = [])) as [->|Hne]; [done|].
  rewrite chunks_unfold by done. intros [= <- <-] Hc. rewrite length_take in Hc.
  by rewrite drop_ge by lia.
Qed.
End reference.

(** ** [pull] and [__next__] *)
Section pull_facts.
Context {St A : Type} `{!PyIterator St A}.

(** A run of successful pulls only extends [items]. *)
Lemma pull_yields (seq seq' : St) (xs items : list A) k :
  yields seq xs seq' -> pull (length xs + k) items seq = pull k (items ++ xs) seq'.
Proof.
  intros Hy. revert items. induction Hy as [s|s x s' xs s'' Hn _ IH]; intros items.
  - by rewrite app_nil_r.
  - simpl. rewrite Hn, IH. by rewrite <- app_assoc.
Qed.

Lemma partition_all_next_pull (self : partition_all St) :
  partition_all_next self =
    let '(r, seq') := pull (Z.to_nat (_n self)) [] (_seq self) in
    match r with
    | Ok items => (if decide (length items = 0) then Raise StopIteration
                   else Ok items, mk_partition_all (_n self) seq')
    | Raise e => (Raise e, mk_partition_all (_n self) seq')
    end.
Proof.
  unfold partition_all_next. py_crush.
  destruct (pull _ _ _) as [[items|e] seq']; simpl; [|done].
  by destruct (decide _).
Qed.
(** Refinement for any source: if the source produces [xs] and is then
    exhausted for good, listing [partition_all] gives [chunks n xs], with
    [length xs + 1] calls. *)
Lemma py_list_partition_all_yields n (src src' : St) (xs : list A) fuel :
  (0 < n)%Z -> yields src xs src' -> exhausted src' -> length xs < fuel ->
  py_list fuel (mk_partition_all n src) =
    Some (Ok (chunks (Z.to_nat n) xs), mk_partition_all n src').
Proof.
  intros Hn. revert src xs. induction fuel as [|fuel IH]; intros src xs Hy Hex Hf; [lia|].
  simpl. rewrite py_next_partition_all, partition_all_next_pull. simpl.
  destruct (decide (Z.to_nat n <= length xs)) as [Hle|Hlt].
  - rewrite <- (take_drop (Z.to_nat n) xs) in Hy.
    destruct (yields_app_inv _ _ _ _ Hy) as (s1 & Hy1 & Hy2).
    rewrite <- (Nat.add_0_r (Z.to_nat n)).
    rewrite <- (length_take_le xs (Z.to_nat n)) at 1 by done.
    rewrite (pull_yields _ _ _ _ _ Hy1). simpl.
    rewrite decide_False by (rewrite length_take; lia). simpl.
    rewrite (IH s1 (drop (Z.to_nat n) xs)) by (done || rewrite length_drop; lia). simpl.
    rewrite (chunks_unfold _ xs) by (lia || (intros ->; simpl in Hle; lia)).
    by rewrite Nat.add_0_r.
  - replace (Z.to_nat n) with (length xs + S (Z.to_nat n - length xs - 1)) by lia.
    rewrite (pull_yields _ _ _ _ _ Hy). simpl. rewrite Hex. simpl.
    destruct xs as [|x xs'].
    + by simpl.
    + rewrite decide_False by done. simpl.
      destruct fuel as [|fuel]; [simpl in Hf; lia|]. simpl.
      rewrite py_next_partition_all, partition_all_next_pull. simpl.
      destruct (Z.to_nat n) as [|k] eqn:Ek; [lia|]. simpl. rewrite Hex. simpl.
      rewrite chunks_unfold, take_ge, drop_ge by (simpl; lia || done).
      done.
Qed.

(** [pull k items] extends [items] by at most [k] elements. *)
Lemma pull_length k (items items' : list A) (src src' : St) :
  pull k items src = (Ok items', src') ->
  length items <= length items' <= length items + k.
Proof.
  revert items src. induction k as [|k IH]; intros items src; simpl.
  - intros Hp. injection Hp as <- _. lia.
  - destruct (py_next src) as [[x|[]] s1]; intros Hp;
      [apply IH in Hp; rewrite ?length_app in Hp; simpl in Hp; lia
      |injection Hp as <- _; lia|discriminate].
Qed.

(** A chunk returned by [__next__] has 1 to [_n] elements, whatever the
    source does. *)
Lemma partition_all_next_ok_length (self self' : partition_all St) (c : list A) :
  partition_all_next self = (Ok c, self') -> 1 <= length c <= Z.to_nat (_n self).
Proof.
  rewrite partition_all_next_pull.
  destruct (pull _ _ _) as [[items|e] src'] eqn:E; [case_decide|]; intros [= Hc _];
    try done. subst c. apply pull_length in E. simpl in E. lia.
Qed.
End pull_facts.

Section seq_facts.
Context {A : Type}.
Implicit Types (xs : list A).

Lemma pull_seq xs i k items :
  pull k items (mk_seq_iterator xs i) =
    (Ok (items ++ take k (drop i xs)),
     mk_seq_iterator xs (i + length (take k (drop i xs)))).
Proof.
  revert i items. induction k as [|k IH]; intros i items; simpl.
  - by rewrite app_nil_r, Nat.add_0_r.
  - rewrite py_next_seq. unfold seq_iterator_next. simpl.
    destruct (xs !! i) as [x|] eqn:Hx.
    + rewrite IH, (drop_S xs x i Hx). simpl.
      by rewrite <- app_assoc, Nat.add_succ_r.
    + rewrite drop_ge by (by apply lookup_ge_None).
      by rewrite take_nil, app_nil_r, Nat.add_0_r.
Qed.

(** [__next__] over a list source, in one equation: the next slice of
    at most [n] elements, [StopIteration] when it is empty. *)
Lemma partition_all_next_seq n xs i :
  partition_all_next (mk_partition_all n (mk_seq_iterator xs i)) =
    let chunk := take (Z.to_nat n) (drop i xs) in
    (if decide (chunk = []) then Raise StopIteration else Ok chunk,
     mk_partition_all n (mk_seq_iterator xs (i + length chunk))).
Proof.
  rewrite partition_all_next_pull. simpl. rewrite pull_seq. simpl. f_equal.
  destruct (decide (length _ = 0)) as [E|E], (decide (take _ _ = [])) as [E'|E'];
    [done| |rewrite E' in E|done]; [apply length_zero_iff_nil in E|]; done.
Qed.

Lemma partition_all_next_seq_end n xs i :
  length xs <= i ->
  partition_all_next (mk_partition_all n (mk_seq_iterator xs i)) =
    (Raise StopIteration, mk_partition_all n (mk_seq_iterator xs i)).
Proof.
  intros Hi. rewrite partition_all_next_seq, drop_ge, take_nil by lia. simpl.
  by rewrite Nat.add_0_r.
Qed.

(** Iterating from position [i] lists the chunks of the rest; the
    length of the rest plus one is enough fuel. *)
Lemma py_list_partition_all_from n xs i fuel :
  (0 < n)%Z -> i <= length xs -> length xs - i < fuel ->
  py_list fuel (mk_partition_all n (mk_seq_iterator xs i)) =
    Some (Ok (chunks (Z.to_nat n) (drop i xs)),
          mk_partition_all n (mk_seq_iterator xs (length xs))).
Proof.
  intros Hn Hi Hf. apply py_list_partition_all_yields; [done| |..].
  - rewrite <- (take_ge (drop i xs) (length xs - i)) by (rewrite length_drop; lia).
    replace (length xs) with (i + (length xs - i)) at 2 by lia.
    apply seq_iterator_yields. lia.
  - apply seq_iterator_exhausted. done.
  - rewrite length_drop. lia.
Qed.
(** From position [i], [__next__] returns the chunks of the rest of the
    list one by one and ends at the end of the list. *)
Lemma partition_all_seq_yields n xs i :
  (0 < n)%Z -> i <= length xs ->
  yields (mk_partition_all n (mk_seq_iterator xs i)) (chunks (Z.to_nat n) (drop i xs))
         (mk_partition_all n (mk_seq_iterator xs (length xs))).
Proof.
  intros Hn. remember (length xs - i) as m eqn:Hm. revert i Hm.
  induction m as [m IH] using lt_wf_ind. intros i Hm Hi.
  destruct (decide (drop i xs = [])) as [Hd|Hd].
  - rewrite Hd. apply drop_nil_length in Hd. replace i with (length xs) by lia. constructor.
  - rewrite chunks_unfold by (done || lia).
    assert (Hc : take (Z.to_nat n) (drop i xs) <> []) by (intros ?%take_nil_inv; [done|lia]).
    econstructor.
    + rewrite py_next_partition_all, partition_all_next_seq. simpl.
      by rewrite decide_False.
    + rewrite <- drop_after_take. apply (IH (length xs - (i + length (take (Z.to_nat n) (drop i xs)))));
        [|done|]; rewrite length_take, length_drop in *;
        (assert (i < length xs) by (apply Nat.nle_gt; intros ?; apply Hd, drop_ge; lia)); lia.
Qed.
End seq_facts.

(** ** Properties of [partition_all] *)

(** C1. Refinement: listing [partition_all(n, xs)] for [n > 0] returns
    the reference chunking [chunks n xs] (consecutive slices of [n]
    elements, the last one possibly shorter) and leaves the wrapped list
    iterator at the end of the list; [length xs + 1] calls of [next] are
    enough, so the iteration terminates. *)
Theorem partition_all_refines_chunks {A} n (xs : list A) fuel :
  (0 < n)%Z -> length xs < fuel ->
  py_list fuel (partition_all_new n xs) =
    Some (Ok (chunks (Z.to_nat n) xs),
          mk_partition_all n (mk_seq_iterator xs (length xs))).
Proof. intros. apply py_list_partition_all_from; [done|lia|lia]. Qed.

Lemma partition_all_refines_chunks_witness :
  py_list 6 (partition_all_new 2 [1; 2; 3; 4; 5]) =
    Some (Ok [[1; 2]; [3; 4]; [5]], mk_partition_all 2 (mk_seq_iterator [1; 2; 3; 4; 5] 5)).
Proof. apply (partition_all_refines_chunks 2 [1; 2; 3; 4; 5] 6); simpl; lia. Defined.

(** C2. Round trip: for [n > 0] and any source that produces [xs] and is
    then exhausted for good (a list, or an iterator passed through
    [_iter]), listing [partition_all(n, source)] terminates and the
    concatenation of the chunks, in order, is [xs]: no element is dropped,
    duplicated or reordered. *)
Theorem partition_all_concat {St A} `{!PyIterator St A} n (src src' : St) (xs : list A) fuel :
  (0 < n)%Z -> yields src xs src' -> exhausted src' -> length xs < fuel ->
  exists cs st, py_list fuel (partition_all_init n src) = Some (Ok cs, st) /\
                concat cs = xs.
Proof.
  intros Hn Hy Hex Hf. eexists _, _. split.
  - by apply py_list_partition_all_yields.
  - apply chunks_concat. lia.
Qed.

Lemma partition_all_concat_witness :
  exists cs st,
    py_list 4 (partition_all_init 2 ([Ok 7; Ok 8; Ok 9] : scripted nat)) = Some (Ok cs, st) /\
    concat cs = [7; 8; 9].
Proof.
  apply (partition_all_concat 2 ([Ok 7; Ok 8; Ok 9] : scripted nat) []); [lia| |reflexivity|simpl; lia].
  repeat (econstructor; [reflexivity|]). constructor.
Defined.

(** C3. Chunk lengths: for [n > 0] and any source that produces a
    non-empty [xs] and is then exhausted for good, every chunk but the
    last has exactly [n] elements, the last has between 1 and [n], and the
    last is full exactly when [n] divides [length xs]. *)
Theorem partition_all_chunk_lengths {St A} `{!PyIterator St A} n (src src' : St)
    (xs : list A) fuel :
  (0 < n)%Z -> yields src xs src' -> exhausted src' -> length xs < fuel -> xs <> [] ->
  exists full last st,
    py_list fuel (partition_all_init n src) = Some (Ok (full ++ [last]), st) /\
    Forall (fun c => length c = Z.to_nat n) full /\
    1 <= length last <= Z.to_nat n /\
    (length last = Z.to_nat n <-> length xs mod Z.to_nat n = 0).
Proof.
  intros Hn Hy Hex Hf Hne.
  destruct (chunks_shape (Z.to_nat n) xs) as (full & last & Hc & Hfull & Hlast & Hlen);
    [lia|done|].
  exists full, last, (mk_partition_all n src').
  split_and!; [|done|lia|lia|].
  - rewrite <- Hc. by apply py_list_partition_all_yields.
  - rewrite Hlen. by apply last_chunk_full_iff.
Qed.

Lemma partition_all_chunk_lengths_witness :
  exists full last st,
    py_list 6 (partition_all_init 2 (_iter [1; 2; 3; 4; 5])) = Some (Ok (full ++ [last]), st) /\
    Forall (fun c => length c = 2) full /\ 1 <= length last <= 2 /\
    (length last = 2 <-> 5 mod 2 = 0).
Proof.
  apply (partition_all_chunk_lengths 2 (_iter [1; 2; 3; 4; 5]) (mk_seq_iterator [1; 2; 3; 4; 5] 5)
           [1; 2; 3; 4; 5]); [lia| |reflexivity|simpl; lia|done].
  repeat (econstructor; [reflexivity|]). constructor.
Defined.

(** C6. [__next__] on a list source, branch by branch: with [n <= 0] or
    the list used up it raises [StopIteration] and changes nothing; with
    [n] elements left it returns the next [n] and advances by [n]; with
    fewer left it returns all of them and moves to the end. *)
Theorem partition_all_next_cases {A} n (xs : list A) i :
  ((n <= 0)%Z \/ length xs <= i ->
   partition_all_next (mk_partition_all n (mk_seq_iterator xs i)) =
     (Raise StopIteration, mk_partition_all n (mk_seq_iterator xs i))) /\
  ((0 < n)%Z -> i + Z.to_nat n <= length xs ->
   partition_all_next (mk_partition_all n (mk_seq_iterator xs i)) =
     (Ok (take (Z.to_nat n) (drop i xs)),
      mk_partition_all n (mk_seq_iterator xs (i + Z.to_nat n)))) /\
  ((0 < n)%Z -> i < length xs < i + Z.to_nat n ->
   partition_all_next (mk_partition_all n (mk_seq_iterator xs i)) =
     (Ok (drop i xs), mk_partition_all n (mk_seq_iterator xs (length xs)))).
Proof.
  rewrite !partition_all_next_seq. simpl. split_and!.
  - intros [Hn|Hi].
    + replace (Z.to_nat n) with 0 by lia. simpl. by rewrite Nat.add_0_r.
    + by rewrite <- partition_all_next_seq, partition_all_next_seq_end.
  - intros Hn Hi.
    assert (Hlen : length (take (Z.to_nat n) (drop i xs)) = Z.to_nat n)
      by (rewrite length_take, length_drop; lia).
    rewrite decide_False; [by rewrite Hlen|].
    intros E. rewrite E in Hlen. simpl in Hlen. lia.
  - intros Hn Hi. rewrite (take_ge (drop i xs)) by (rewrite length_drop; lia).
    rewrite decide_False; [rewrite length_drop; do 4 f_equal; lia|].
    intros E%drop_nil_length. lia.
Qed.

Lemma partition_all_next_cases_witness :
  partition_all_next (mk_partition_all 2 (mk_seq_iterator [1; 2; 3] 0)) =
    (Ok [1; 2], mk_partition_all 2 (mk_seq_iterator [1; 2; 3] 2)).
Proof. apply (proj1 (proj2 (partition_all_next_cases 2 [1; 2; 3] 0))); simpl; lia. Defined.

(** C8. A non-positive chunk size: [xrange(n)] is empty, so [__next__]
    raises [StopIteration] at once, for any source, without pulling from
    it.  [partition_all(0, seq)] is silently empty; nothing fails. *)
Theorem partition_all_nonpositive {St A} `{!PyIterator St A} n (seq : St) :
  (n <= 0)%Z ->
  partition_all_next (A := A) (mk_partition_all n seq) =
    (Raise StopIteration, mk_partition_all n seq).
Proof.
  intros Hn. rewrite partition_all_next_pull. simpl.
  by replace (Z.to_nat n) with 0 by lia.
Qed.

Lemma partition_all_nonpositive_witness :
  partition_all_next (mk_partition_all 0 (mk_seq_iterator [1; 2; 3] 0)) =
    (Raise StopIteration, mk_partition_all 0 (mk_seq_iterator [1; 2; 3] 0)).
Proof. apply (partition_all_nonpositive 0 (mk_seq_iterator [1; 2; 3] 0)). lia. Defined.

(** C9. Upstream faults propagate: if the source returns [xs] and then
    raises an exception other than [StopIteration] before [n] elements
    are pulled, [__next__] raises the same exception, the pulled elements
    are lost, and the source stays where the fault left it. *)
Theorem partition_all_upstream_fault {St A} `{!PyIterator St A}
    n (seq seq' seq'' : St) (xs : list A) e :
  yields seq xs seq' -> length xs < Z.to_nat n ->
  py_next seq' = (Raise e, seq'') -> e <> StopIteration ->
  partition_all_next (mk_partition_all n seq) = (Raise e, mk_partition_all n seq'').
Proof.
  intros Hy Hlt Hnext He. rewrite partition_all_next_pull. simpl.
  replace (Z.to_nat n) with (length xs + S (Z.to_nat n - length xs - 1)) by lia.
  rewrite (pull_yields _ _ _ _ _ Hy). simpl. rewrite Hnext.
  by destruct e.
Qed.

Lemma partition_all_upstream_fault_witness :
  partition_all_next
    (mk_partition_all 3 ([Ok 1; Raise (PyException "ValueError"%string)] : scripted nat)) =
    (Raise (PyException "ValueError"%string), mk_partition_all 3 ([] : scripted nat)).
Proof.
  apply (partition_all_upstream_fault 3 [Ok 1; Raise (PyException "ValueError"%string)]
           [Raise (PyException "ValueError"%string)] [] [1]).
  - econstructor; [reflexivity|constructor].
  - simpl. lia.
  - reflexivity.
  - discriminate.
Defined.

(** C10. Invariant of every state reachable from [partition_all(n, xs)]
    with [n > 0]: [_n] and the wrapped list are unchanged, and the
    source's position is within the list and either at its end or a
    multiple of [n], so chunk boundaries stay aligned. *)
Theorem partition_all_reachable_aligned {A} n (xs : list A) st :
  (0 < n)%Z -> reachable (partition_all_new n xs) st ->
  _n st = n /\ _sequence (_seq st) = xs /\ _position (_seq st) <= length xs /\
  (_position (_seq st) = length xs \/ Nat.divide (Z.to_nat n) (_position (_seq st))).
Proof.
  intros Hn Hr. induction Hr as [|st r st' _ IH Hstep].
  - simpl. split_and!; [done|done|lia|right; apply Nat.divide_0_r].
  - destruct st as [n' [xs' p]]; simpl in IH.
    destruct IH as (-> & -> & Hp & Hal).
    rewrite py_next_partition_all, partition_all_next_seq in Hstep.
    injection Hstep as _ <-. simpl. rewrite length_take, length_drop.
    split_and!; [done|done|lia|].
    destruct (decide (Z.to_nat n <= length xs - p)); [|left; lia].
    destruct Hal as [->|[q ->]]; [left; lia|right].
    exists (S q). lia.
Qed.

Lemma partition_all_reachable_aligned_witness :
  _n (mk_partition_all 2 (mk_seq_iterator [1; 2; 3] 2)) = 2%Z /\
  _sequence (_seq (mk_partition_all 2 (mk_seq_iterator [1; 2; 3] 2))) = [1; 2; 3] /\
  _position (_seq (mk_partition_all 2 (mk_seq_iterator [1; 2; 3] 2))) <= 3 /\
  (_position (_seq (mk_partition_all 2 (mk_seq_iterator [1; 2; 3] 2))) = 3 \/
   Nat.divide 2 (_position (_seq (mk_partition_all 2 (mk_seq_iterator [1; 2; 3] 2))))).
Proof.
  apply (partition_all_reachable_aligned 2 [1; 2; 3]); [lia|].
  eapply reach_step; [apply reach_init|reflexivity].
Defined.

(** C11. On a list source exhaustion is permanent: once [__next__]
    raises [StopIteration] the object is unchanged and every later call
    raises [StopIteration] again. *)
Theorem partition_all_stop_permanent {A} n (xs : list A) i st' :
  partition_all_next (mk_partition_all n (mk_seq_iterator xs i)) =
    (Raise StopIteration, st') ->
  st' = mk_partition_all n (mk_seq_iterator xs i) /\ exhausted st'.
Proof.
  rewrite partition_all_next_seq. simpl.
  destruct (decide _) as [E|E]; [|discriminate]. intros [= <-].
  rewrite E. simpl. rewrite Nat.add_0_r. split; [done|].
  unfold exhausted. rewrite py_next_partition_all, partition_all_next_seq. simpl.
  rewrite E. simpl. by rewrite Nat.add_0_r.
Qed.

Lemma partition_all_stop_permanent_witness :
  mk_partition_all 2 (mk_seq_iterator [1; 2; 3] 3) =
    mk_partition_all 2 (mk_seq_iterator [1; 2; 3] 3) /\
  exhausted (mk_partition_all 2 (mk_seq_iterator [1; 2; 3] 3)).
Proof. apply (partition_all_stop_permanent 2 [1; 2; 3] 3). reflexivity. Defined.
(** C17. Whatever the source does, every chunk [partition_all.__next__]
    returns has between 1 and [_n] elements. *)
Theorem partition_all_chunk_bounds {St A} `{!PyIterator St A}
    (self self' : partition_all St) (c : list A) :
  partition_all_next self = (Ok c, self') -> 1 <= length c <= Z.to_nat (_n self).
Proof. apply partition_all_next_ok_length. Qed.

Lemma partition_all_chunk_bounds_witness :
  1 <= length [1; 2] <= Z.to_nat (_n (mk_partition_all 3 ([Ok 1; Ok 2] : scripted nat))).
Proof.
  apply (partition_all_chunk_bounds (mk_partition_all 3 ([Ok 1; Ok 2] : scripted nat))
           (mk_partition_all 3 ([] : scripted nat))).
  reflexivity.
Defined.

(** C18. Chunkers compose: [partition_all(m, partition_all(n, xs))], where
    [_iter] hands the inner iterator over unchanged, lists the chunking by
    [m] of the chunking by [n] of [xs], for [m, n > 0]. *)
Theorem partition_all_nested {A} m n (xs : list A) fuel :
  (0 < m)%Z -> (0 < n)%Z -> length xs < fuel ->
  py_list fuel (partition_all_init m (_iter_itertool (partition_all_new n xs))) =
    Some (Ok (chunks (Z.to_nat m) (chunks (Z.to_nat n) xs)),
          mk_partition_all m (mk_partition_all n (mk_seq_iterator xs (length xs)))).
Proof.
  intros Hm Hn Hf. apply py_list_partition_all_yields; [done| | |].
  - apply (partition_all_seq_yields n xs 0); [done|lia].
  - apply partition_all_next_seq_end. done.
  - pose proof (length_chunks_le (Z.to_nat n) xs). lia.
Qed.

Lemma partition_all_nested_witness :
  py_list 6 (partition_all_init 2 (_iter_itertool (partition_all_new 2 [1; 2; 3; 4; 5]))) =
    Some (Ok [[[1; 2]; [3; 4]]; [[5]]],
          mk_partition_all 2 (mk_partition_all 2 (mk_seq_iterator [1; 2; 3; 4; 5] 5))).
Proof. apply (partition_all_nested 2 2 [1; 2; 3; 4; 5] 6); simpl; lia. Defined.
End PartitionAll.
