(* ===== verification/Partition.v ===== *)
(** * [partition] (src/picklable_itertools/extras.py, lines 11-44)

    The object state is its [__dict__]: [_n], the owned [_partition_all]
    and [_pad].  [__next__] takes the next chunk of [_partition_all]; a
    short chunk is padded with [_pad] when [_pad != _NO_PAD] and otherwise
    ends the iteration with [StopIteration].  [_NO_PAD] is the class
    attribute, the [str] ['__no_pad__'].  [finish] is the effect of
    [__next__] on the list of chunks [partition_all] would produce, and
    [py_list_partition] the refinement of a run of [partition] into it, for
    any source.  [pad_to] is the padding expression of line 41.
    [takewhile] models CPython's [itertools.takewhile], the reference that
    [partition] without a pad is proved equivalent to. *)

From stdpp Require Import base list strings.
From Stdlib Require Import ZArith Lia.
From S2P Require Import Prelude Iterator PartitionAll.
Import SeqIter Scripted PartitionAll.

Module Partition.
Record partition (St A : Type) := mk_partition {
  _n : Z;
  _partition_all : partition_all St;
  _pad : A
}.
Arguments mk_partition {St A} _ _ _.
Arguments _n {St A} _.
Arguments _partition_all {St A} _.
Arguments _pad {St A} _.

(** [_NO_PAD = '__no_pad__'], the default of the [pad] argument. *)
Definition _NO_PAD {A} `{!PyStrValue A} : A := py_str "__no_pad__".

Section ops.
Context {St A : Type} `{!PyIterator St A} `{!EqDecision A} `{!PyStrValue A}.

(** [__init__(self, n, seq, pad=_NO_PAD)]. *)
Definition partition_init (n : Z) (seq : St) (pad : A) : partition St A :=
  mk_partition n (partition_all_init n seq) pad.

Definition set_partition_all (pa : partition_all St) (self : partition St A) :
    partition St A :=
  mk_partition (_n self) pa (_pad self).

(** [items += (pad,) * (n - len(items))]: Python's [tuple * k] is empty
    for [k <= 0], so a chunk of [n] elements or more is unchanged. *)
Definition pad_to (n : Z) (pad : A) (items : list A) : list A :=
  items ++ replicate (Z.to_nat (n - Z.of_nat (length items))) pad.

(** [__next__]: [items = next(self._partition_all)]; when
    [len(items) < self._n], pad with [(self._pad,) * (self._n - len(items))]
    if [self._pad != self._NO_PAD], else raise [StopIteration]. *)
Definition partition_next : PyM (partition St A) (list A) :=
  fun self =>
    (items <- py_field _partition_all set_partition_all partition_all_next ;;
     if decide (Z.of_nat (length items) < _n self)%Z then
       if decide (_pad self <> _NO_PAD) then py_ret (pad_to (_n self) (_pad self) items)
       else raise StopIteration
     else py_ret items)%py self.

#[global] Instance partition_iter : PyIterator (partition St A) (list A) :=
  partition_next.

Lemma py_next_partition (self : partition St A) : py_next self = partition_next self.
Proof. reflexivity. Qed.
End ops.

(** [partition(n, xs, pad)] on a list. *)
Definition partition_new {A} `{!PyStrValue A} (n : Z) (xs : list A) (pad : A) :
    partition (seq_iterator A) A :=
  partition_init n (_iter xs) pad.

(** ** The effect of [__next__] on a list of chunks *)
Section finish.
Context {A : Type} `{!EqDecision A} `{!PyStrValue A}.

(** Full chunks pass, a short chunk is padded or ends the run. *)
Fixpoint finish (n : Z) (pad : A) (cs : list (list A)) : list (list A) :=
  match cs with
  | [] => []
  | c :: cs' =>
      if decide (Z.of_nat (length c) < n)%Z then
        if decide (pad <> _NO_PAD) then
          pad_to n pad c :: finish n pad cs'
        else []
      else c :: finish n pad cs'
  end.

Lemma length_finish_le n pad cs : length (finish n pad cs) <= length cs.
Proof. induction cs as [|c cs IH]; simpl; [lia|]. repeat case_decide; simpl; lia. Qed.

Lemma finish_full n pad full rest :
  Forall (fun c => length c = Z.to_nat n) full ->
  finish n pad (full ++ rest) = full ++ finish n pad rest.
Proof.
  induction 1 as [|c full Hc _ IH]; [done|]. simpl.
  rewrite decide_False by lia. by rewrite IH.
Qed.
End finish.

Section refinement.
Context {St A : Type} `{!PyIterator St A} `{!EqDecision A} `{!PyStrValue A}.

(** One call of [partition.__next__] in terms of the call of
    [partition_all.__next__] it makes. *)
Lemma partition_next_eq n (pa : partition_all St) (pad : A) :
  partition_next (mk_partition n pa pad) =
    match py_next pa with
    | (Ok items, pa') =>
        (if decide (Z.of_nat (length items) < n)%Z then
           if decide (pad <> _NO_PAD) then Ok (pad_to n pad items)
           else Raise StopIteration
         else Ok items, mk_partition n pa' pad)
    | (Raise e, pa') => (Raise e, mk_partition n pa' pad)
    end.
Proof.
  rewrite py_next_partition_all. unfold partition_next. py_crush.
  destruct (partition_all_next pa) as [[items|e] pa']; [|done].
  by repeat case_decide.
Qed.

(** Refinement: a run of [partition] lists [finish] of the chunks its
    [partition_all] would list, with no more fuel. *)
Lemma py_list_partition fuel n (pa pa' : partition_all St) (pad : A) cs :
  py_list fuel pa = Some (Ok cs, pa') ->
  exists st', py_list fuel (mk_partition n pa pad) = Some (Ok (finish n pad cs), st').
Proof.
  revert pa cs. induction fuel as [|fuel IH]; intros pa cs H; [done|].
  simpl in H |- *. rewrite py_next_partition, partition_next_eq.
  destruct (py_next pa) as [[items|[]] pa1]; simpl in H; try discriminate.
  - destruct (py_list fuel pa1) as [[[cs'|e] pa2]|] eqn:E; simpl in H;
      try discriminate. injection H as <- <-.
    destruct (IH _ _ E) as [st' Hst']. simpl.
    repeat case_decide; simpl; try rewrite Hst'; by eexists.
  - injection H as <- <-. by eexists.
Qed.
End refinement.

(** ** [partition] over a list *)
Section on_lists.
Context {A : Type} `{!EqDecision A} `{!PyStrValue A}.
Implicit Types (xs : list A) (pad : A).

Lemma py_list_partition_new n xs pad fuel :
  (0 < n)%Z -> length xs < fuel ->
  exists st', py_list fuel (partition_new n xs pad) =
              Some (Ok (finish n pad (chunks (Z.to_nat n) xs)), st').
Proof.
  intros Hn Hf. apply (py_list_partition _ _ _ (mk_partition_all n (mk_seq_iterator xs (length xs)))).
  apply (py_list_partition_all_from n xs 0); [done|lia|lia].
Qed.

(** What [partition] makes of the chunking of a non-empty list: the
    full chunks, then the last chunk kept, padded or dropped. *)
Lemma finish_chunks n xs pad :
  (0 < n)%Z -> xs <> [] ->
  exists full last,
    chunks (Z.to_nat n) xs = full ++ [last] /\
    Forall (fun c => length c = Z.to_nat n) full /\
    0 < length last <= Z.to_nat n /\
    length xs = Z.to_nat n * length full + length last /\
    concat full ++ last = xs /\
    finish n pad (chunks (Z.to_nat n) xs) =
      full ++ (if decide (length last = Z.to_nat n) then [last]
               else if decide (pad <> _NO_PAD)
                    then [last ++ replicate (Z.to_nat n - length last) pad]
                    else []).
Proof.
  intros Hn Hne.
  destruct (chunks_shape (Z.to_nat n) xs) as (full & last & Hc & Hfull & Hl & Hlen);
    [lia|done|].
  exists full, last. split_and!; [done|done|lia|lia|done| |].
  { rewrite <- (chunks_concat (Z.to_nat n) xs), Hc, concat_app by lia. simpl.
    by rewrite app_nil_r. }
  rewrite Hc, finish_full by done. f_equal. simpl.
  destruct (decide (length last = Z.to_nat n)) as [E|E].
  - by rewrite decide_False by lia.
  - rewrite decide_True by lia. case_decide; [|done]. unfold pad_to.
    by replace (Z.to_nat (n - Z.of_nat (length last))) with (Z.to_nat n - length last) by lia.
Qed.
End on_lists.

(** With its source at the end of the list, [partition] is exhausted. *)
Lemma partition_exhausted_at_end {A} `{!EqDecision A} `{!PyStrValue A}
    n (xs : list A) i (pad : A) :
  length xs <= i ->
  exhausted (mk_partition n (mk_partition_all n (mk_seq_iterator xs i)) pad).
Proof.
  intros Hi. unfold exhausted.
  by rewrite py_next_partition, partition_next_eq, py_next_partition_all,
    partition_all_next_seq_end.
Qed.

(** On a list source an exception of [partition.__next__] (only
    [StopIteration] can occur) leaves it exhausted for good: the short
    chunk it drops is the end of the list. *)
Lemma partition_seq_raise_exhausted {A} `{!EqDecision A} `{!PyStrValue A}
    n (xs : list A) i (pad : A) e st' :
  partition_next (mk_partition n (mk_partition_all n (mk_seq_iterator xs i)) pad) =
    (Raise e, st') ->
  exhausted st'.
Proof.
  rewrite partition_next_eq, py_next_partition_all, partition_all_next_seq. simpl.
  destruct (decide (take _ _ = [])) as [E|E].
  - intros [= _ <-]. rewrite E, Nat.add_0_r. unfold exhausted.
    rewrite py_next_partition, partition_next_eq, py_next_partition_all,
      partition_all_next_seq. simpl. rewrite E. simpl. by rewrite Nat.add_0_r.
  - repeat case_decide; intros Hst; try discriminate. injection Hst as _ <-.
    apply partition_exhausted_at_end. rewrite length_take, length_drop in *. lia.
Qed.

(** [pad_to] leaves a chunk of at least [n] elements unchanged. *)
Lemma pad_to_full {A} n (pad : A) c :
  (n <= Z.of_nat (length c))%Z -> pad_to n pad c = c.
Proof.
  intros Hn. unfold pad_to. by replace (Z.to_nat (n - Z.of_nat (length c))) with 0
    by lia; rewrite app_nil_r.
Qed.

(** A tuple returned by [__next__] has exactly [_n] elements when the
    owned [partition_all] was built with the same [_n]. *)
Lemma partition_next_ok_length {St A} `{!PyIterator St A} `{!EqDecision A} `{!PyStrValue A}
    (self self' : partition St A) (c : list A) :
  PartitionAll._n (_partition_all self) = _n self ->
  partition_next self = (Ok c, self') -> length c = Z.to_nat (_n self).
Proof.
  destruct self as [n pa pad]. simpl. intros Hn. rewrite partition_next_eq.
  destruct (py_next pa) as [[items|e] pa'] eqn:E; [|discriminate].
  rewrite py_next_partition_all in E. apply partition_all_next_ok_length in E.
  rewrite Hn in E. repeat case_decide; intros [= <- _]; [|lia].
  unfold pad_to. rewrite length_app, length_replicate. lia.
Qed.

(** ** Properties of [partition] *)

(** C4. Without a pad, [partition(n, xs)] for [n > 0] terminates and
    lists [length xs / n] chunks (rounded down), each of exactly [n]
    elements, which together are the first [n * (length xs / n)]
    elements of [xs]: the full chunks of [partition_all], the short
    tail dropped. *)
Theorem partition_nopad_floor {A} `{!EqDecision A} `{!PyStrValue A}
    n (xs : list A) fuel :
  (0 < n)%Z -> length xs < fuel ->
  exists cs st, py_list fuel (partition_new n xs _NO_PAD) = Some (Ok cs, st) /\
    length cs = length xs / Z.to_nat n /\
    Forall (fun c => length c = Z.to_nat n) cs /\
    concat cs = take (Z.to_nat n * (length xs / Z.to_nat n)) xs.
Proof.
  intros Hn Hf. destruct (py_list_partition_new n xs _NO_PAD fuel Hn Hf) as [st Hst].
  eexists _, st. split; [exact Hst|].
  destruct (decide (xs = [])) as [->|Hne].
  { rewrite Nat.Div0.div_0_l. simpl. split_and!; [done|by apply Forall_nil|by rewrite take_nil]. }
  destruct (finish_chunks n xs _NO_PAD Hn Hne)
    as (full & last & _ & Hfull & Hl & Hlen & Hcat & ->).
  rewrite Hlen, chunk_count_div, <- Hcat by lia.
  destruct (decide (length last = Z.to_nat n)) as [E|E].
  - rewrite concat_app, take_ge by (rewrite length_app, (length_concat_uniform _ _ Hfull);
      simpl; lia).
    split_and!; [rewrite length_app; simpl; lia|apply Forall_app; auto|simpl; by rewrite app_nil_r].
  - rewrite decide_False by tauto. rewrite app_nil_r.
    rewrite <- (length_concat_uniform _ _ Hfull), take_app_length.
    split_and!; [lia|done|done].
Qed.

Lemma partition_nopad_floor_witness :
  exists cs st,
    py_list 6 (partition_new 2 [PyInt 1; PyInt 2; PyInt 3; PyInt 4; PyInt 5] _NO_PAD) =
      Some (Ok cs, st) /\
    length cs = 5 / 2 /\ Forall (fun c => length c = 2) cs /\
    concat cs = take (2 * (5 / 2)) [PyInt 1; PyInt 2; PyInt 3; PyInt 4; PyInt 5].
Proof. apply (partition_nopad_floor 2 [PyInt 1; PyInt 2; PyInt 3; PyInt 4; PyInt 5] 6); simpl; lia. Defined.

(** C5. With a pad value other than the sentinel, [partition(n, xs, pad)]
    for [n > 0] terminates and lists [ceil(length xs / n)] chunks, each
    of exactly [n] elements, which together are [xs] followed by
    [(n - length xs mod n) mod n] copies of [pad]. *)
Theorem partition_pad_ceil {A} `{!EqDecision A} `{!PyStrValue A}
    n (xs : list A) (pad : A) fuel :
  pad <> _NO_PAD -> (0 < n)%Z -> length xs < fuel ->
  exists cs st, py_list fuel (partition_new n xs pad) = Some (Ok cs, st) /\
    length cs = (length xs + Z.to_nat n - 1) / Z.to_nat n /\
    Forall (fun c => length c = Z.to_nat n) cs /\
    concat cs = xs ++ replicate ((Z.to_nat n - length xs mod Z.to_nat n) mod Z.to_nat n) pad.
Proof.
  intros Hpad Hn Hf. destruct (py_list_partition_new n xs pad fuel Hn Hf) as [st Hst].
  eexists _, st. split; [exact Hst|].
  destruct (decide (xs = [])) as [->|Hne].
  { simpl. rewrite Nat.div_small, Nat.Div0.mod_0_l, Nat.sub_0_r, Nat.Div0.mod_same by lia.
    split_and!; [done|by apply Forall_nil|done]. }
  destruct (finish_chunks n xs pad Hn Hne)
    as (full & last & _ & Hfull & Hl & Hlen & Hcat & ->).
  rewrite Hlen, chunk_count_ceil, <- Hcat by lia.
  destruct (decide (length last = Z.to_nat n)) as [E|E].
  - rewrite (proj1 (last_chunk_full_iff _ _ _ Hl) E), Nat.sub_0_r, Nat.Div0.mod_same.
    split_and!; [rewrite length_app; simpl; lia|apply Forall_app; auto|].
    rewrite concat_app. simpl. by rewrite !app_nil_r.
  - rewrite decide_True by done. rewrite chunk_short_mod, Nat.mod_small by lia.
    split_and!; [rewrite length_app; simpl; lia| |].
    + apply Forall_app. split; [done|]. constructor; [|done].
      rewrite length_app, length_replicate. lia.
    + rewrite concat_app. simpl. by rewrite app_nil_r, app_assoc.
Qed.

Lemma partition_pad_ceil_witness :
  exists cs st,
    py_list 6 (partition_new 2 [PyInt 1; PyInt 2; PyInt 3; PyInt 4; PyInt 5] PyNone) =
      Some (Ok cs, st) /\
    length cs = (5 + 2 - 1) / 2 /\ Forall (fun c => length c = 2) cs /\
    concat cs = [PyInt 1; PyInt 2; PyInt 3; PyInt 4; PyInt 5] ++
                replicate ((2 - 5 mod 2) mod 2) PyNone.
Proof.
  apply (partition_pad_ceil 2 [PyInt 1; PyInt 2; PyInt 3; PyInt 4; PyInt 5] PyNone 6);
    [discriminate|lia|simpl; lia].
Defined.

(** C7. [partition.__next__], branch by branch, for any source: an
    exception of [partition_all] (exhaustion included) propagates; a
    chunk of at least [n] elements is returned unchanged; a short chunk
    is, with a pad, extended to exactly [n] elements by copies of the pad
    and, without one, consumed and replaced by [StopIteration]. *)
Theorem partition_next_cases {St A} `{!PyIterator St A} `{!EqDecision A}
    `{!PyStrValue A} n (pa pa' : partition_all St) (pad : A) :
  (forall e, partition_all_next pa = (Raise e, pa') ->
     partition_next (mk_partition n pa pad) = (Raise e, mk_partition n pa' pad)) /\
  (forall items, partition_all_next pa = (Ok items, pa') ->
     (n <= Z.of_nat (length items))%Z ->
     partition_next (mk_partition n pa pad) = (Ok items, mk_partition n pa' pad)) /\
  (forall items, partition_all_next pa = (Ok items, pa') ->
     (Z.of_nat (length items) < n)%Z -> pad <> _NO_PAD ->
     exists padded,
       partition_next (mk_partition n pa pad) = (Ok padded, mk_partition n pa' pad) /\
       length padded = Z.to_nat n /\ take (length items) padded = items /\
       Forall (fun y => y = pad) (drop (length items) padded)) /\
  (forall items, partition_all_next pa = (Ok items, pa') ->
     (Z.of_nat (length items) < n)%Z -> pad = _NO_PAD ->
     partition_next (mk_partition n pa pad) = (Raise StopIteration, mk_partition n pa' pad)).
Proof.
  rewrite partition_next_eq, py_next_partition_all.
  split_and!; intros ? Hpa; rewrite Hpa; [done|..]; intros Hlt.
  - by rewrite decide_False by lia.
  - intros Hpad. rewrite !decide_True by done. eexists. split_and!; [done|..];
      unfold pad_to.
    + rewrite length_app, length_replicate. lia.
    + apply take_app_length.
    + rewrite drop_app_length. by apply Forall_replicate.
  - intros ->. rewrite decide_True by done. by rewrite decide_False by tauto.
Qed.

Lemma partition_next_cases_witness :
  exists padded,
    partition_next (mk_partition 2 (mk_partition_all 2 (mk_seq_iterator [PyInt 1; PyInt 2; PyInt 3] 2)) PyNone) =
      (Ok padded, mk_partition 2 (mk_partition_all 2 (mk_seq_iterator [PyInt 1; PyInt 2; PyInt 3] 3)) PyNone) /\
    length padded = Z.to_nat 2 /\ take (length [PyInt 3]) padded = [PyInt 3] /\
    Forall (fun y => y = PyNone) (drop (length [PyInt 3]) padded).
Proof.
  apply (proj1 (proj2 (proj2 (partition_next_cases 2
    (mk_partition_all 2 (mk_seq_iterator [PyInt 1; PyInt 2; PyInt 3] 2))
    (mk_partition_all 2 (mk_seq_iterator [PyInt 1; PyInt 2; PyInt 3] 3)) PyNone)))
    [PyInt 3]); [reflexivity|simpl; lia|discriminate].
Defined.

(** C12. The sentinel is compared by equality: a user pad equal to the
    [str] ['__no_pad__'] is taken for "no pad".  When [n] does not divide
    [length xs], [partition(n, xs, pad=s)] for a [str] [s] lists the
    ceiling number of chunks (the short chunk padded) exactly when [s] is
    not ['__no_pad__']; with ['__no_pad__'] the short chunk is dropped. *)
Theorem partition_sentinel_collision n (xs : list pyval) (s : string) fuel :
  (0 < n)%Z -> length xs < fuel -> length xs mod Z.to_nat n <> 0 ->
  exists cs st,
    py_list fuel (partition_new n xs (PyStr s)) = Some (Ok cs, st) /\
    (length cs = (length xs + Z.to_nat n - 1) / Z.to_nat n <-> s <> "__no_pad__").
Proof.
  intros Hn Hf Hmod. destruct (py_list_partition_new n xs (PyStr s) fuel Hn Hf) as [st Hst].
  eexists _, st. split; [exact Hst|].
  destruct (decide (xs = [])) as [->|Hne]; [by rewrite Nat.Div0.mod_0_l in Hmod|].
  destruct (finish_chunks n xs (PyStr s) Hn Hne)
    as (full & last & _ & _ & Hl & Hlen & _ & ->).
  rewrite Hlen, chunk_count_ceil in * by lia.
  rewrite decide_False by (intros E; apply Hmod, last_chunk_full_iff; lia).
  unfold _NO_PAD, py_str, pyval_str.
  destruct (decide (PyStr s <> PyStr "__no_pad__")) as [Hs|Hs];
    rewrite length_app; simpl; split; intros H; try lia; [congruence|].
  exfalso. apply H. by apply dec_stable in Hs; injection Hs.
Qed.

Lemma partition_sentinel_collision_witness :
  exists cs st,
    py_list 4 (partition_new 2 [PyInt 1; PyInt 2; PyInt 3] (PyStr "__no_pad__")) =
      Some (Ok cs, st) /\
    (length cs = (3 + 2 - 1) / 2 <-> "__no_pad__" <> "__no_pad__").
Proof.
  apply (partition_sentinel_collision 2 [PyInt 1; PyInt 2; PyInt 3] "__no_pad__" 4);
    simpl; [lia|lia|discriminate].
Defined.

(** C13. Exhaustion of the source is taken as permanent: if the source
    returns one element and then raises [StopIteration] while [n >= 2],
    [partition] without a pad raises [StopIteration], the element is
    lost, and the object now iterates what the source produces next. *)
Theorem partition_stop_midstream {St A} `{!PyIterator St A} `{!EqDecision A}
    `{!PyStrValue A} n (src src1 src2 : St) (x : A) :
  (2 <= n)%Z -> py_next src = (Ok x, src1) -> py_next src1 = (Raise StopIteration, src2) ->
  partition_next (mk_partition n (mk_partition_all n src) _NO_PAD) =
    (Raise StopIteration, mk_partition n (mk_partition_all n src2) _NO_PAD).
Proof.
  intros Hn H1 H2.
  rewrite partition_next_eq, py_next_partition_all, partition_all_next_pull. simpl.
  replace (Z.to_nat n) with (S (S (Z.to_nat n - 2))) by lia. simpl.
  rewrite H1. destruct (Z.to_nat n - 2); simpl; rewrite H2; simpl;
    (rewrite decide_True by lia); by rewrite decide_False by tauto.
Qed.

Lemma partition_stop_midstream_witness :
  let src : scripted pyval := [Ok (PyInt 1); Raise StopIteration; Ok (PyInt 2); Ok (PyInt 3)] in
  partition_next (mk_partition 2 (mk_partition_all 2 src) _NO_PAD) =
    (Raise StopIteration,
     mk_partition 2 (mk_partition_all 2 ([Ok (PyInt 2); Ok (PyInt 3)] : scripted pyval)) _NO_PAD) /\
  py_list 3 (mk_partition 2 (mk_partition_all 2 ([Ok (PyInt 2); Ok (PyInt 3)] : scripted pyval)) _NO_PAD) =
    Some (Ok [[PyInt 2; PyInt 3]],
          mk_partition 2 (mk_partition_all 2 ([] : scripted pyval)) _NO_PAD).
Proof.
  split; [|reflexivity].
  apply (partition_stop_midstream 2 _ ([Raise StopIteration; Ok (PyInt 2); Ok (PyInt 3)] : scripted pyval)
           _ (PyInt 1));
    [lia|reflexivity|reflexivity].
Defined.

(** C14. On a list source [partition] stops for good: once [__next__]
    raises [StopIteration] (exhaustion, or a dropped short chunk), every
    later call raises it again and changes nothing. *)
Theorem partition_stop_permanent {A} `{!EqDecision A} `{!PyStrValue A}
    n (xs : list A) i (pad : A) st' :
  partition_next (mk_partition n (mk_partition_all n (mk_seq_iterator xs i)) pad) =
    (Raise StopIteration, st') ->
  exhausted st'.
Proof. apply partition_seq_raise_exhausted. Qed.

Lemma partition_stop_permanent_witness :
  exhausted (mk_partition 2 (mk_partition_all 2 (mk_seq_iterator [PyInt 1; PyInt 2; PyInt 3] 3)) _NO_PAD).
Proof.
  apply (partition_stop_permanent 2 [PyInt 1; PyInt 2; PyInt 3] 2 _NO_PAD). reflexivity.
Defined.
(** C20. Equivalence with a pad: for any source and any number of calls,
    [partition(n, seq, pad)] with [pad] not the sentinel runs in lockstep
    with [(c + (pad,) * (n - len(c)) for c in partition_all(n, seq))]:
    the same chunks padded, the same exceptions, the same states of the
    owned [partition_all]. *)
Theorem partition_pad_equiv {St A} `{!PyIterator St A} `{!EqDecision A} `{!PyStrValue A}
    n (pa : partition_all St) (pad : A) fuel :
  pad <> _NO_PAD ->
  py_list fuel (mk_partition n pa pad) =
    (fun '(r, pa') => (res_map (map (pad_to n pad)) r, mk_partition n pa' pad))
      <$> py_list fuel pa.
Proof.
  intros Hpad. revert pa. induction fuel as [|fuel IH]; intros pa; [done|]. simpl.
  rewrite py_next_partition, partition_next_eq.
  destruct (py_next pa) as [[items|[]] pa1]; [|done|done].
  replace (if decide _ then _ else _) with (@Ok (list A) (pad_to n pad items))
    by (repeat case_decide; rewrite ?pad_to_full by lia; done || tauto).
  rewrite IH. by destruct (py_list fuel pa1) as [[[l|e] pa2]|].
Qed.

Lemma partition_pad_equiv_witness :
  py_list 3 (mk_partition 2 (mk_partition_all 2 ([Ok (PyInt 1); Raise (PyException "IOError"%string)] : scripted pyval)) PyNone) =
    (fun '(r, pa') => (res_map (map (pad_to 2 PyNone)) r, mk_partition 2 pa' PyNone))
      <$> py_list 3 (mk_partition_all 2 ([Ok (PyInt 1); Raise (PyException "IOError"%string)] : scripted pyval)).
Proof. apply partition_pad_equiv. discriminate. Defined.

(** C21. Every tuple [partition.__next__] returns has exactly [n]
    elements, whatever the source does, for an object whose
    [_partition_all] was built with the same [n] (as [__init__] does). *)
Theorem partition_next_ntuple {St A} `{!PyIterator St A} `{!EqDecision A} `{!PyStrValue A}
    (self self' : partition St A) (c : list A) :
  PartitionAll._n (_partition_all self) = _n self ->
  partition_next self = (Ok c, self') -> length c = Z.to_nat (_n self).
Proof. apply partition_next_ok_length. Qed.

Lemma partition_next_ntuple_witness :
  length [PyInt 5; PyNone] =
    Z.to_nat (_n (mk_partition 2 (mk_partition_all 2 ([Ok (PyInt 5)] : scripted pyval)) PyNone)).
Proof.
  apply (partition_next_ntuple _ (mk_partition 2 (mk_partition_all 2 ([] : scripted pyval)) PyNone));
    reflexivity.
Defined.

(** C30. A non-positive chunk size is not rejected: for [n <= 0], any
    source and any pad, [partition(n, seq, pad)] is exhausted from the
    start ([StopIteration] on every call, nothing pulled from the source),
    so [list(partition(0, xs))] is silently empty. *)
Theorem partition_nonpositive {St A} `{!PyIterator St A} `{!EqDecision A} `{!PyStrValue A}
    n (src : St) (pad : A) :
  (n <= 0)%Z -> exhausted (partition_init n src pad).
Proof.
  intros Hn. unfold exhausted, partition_init, partition_all_init.
  rewrite py_next_partition, partition_next_eq, py_next_partition_all, partition_all_next_pull.
  simpl. by replace (Z.to_nat n) with 0 by lia.
Qed.

Lemma partition_nonpositive_witness :
  exhausted (partition_init 0 ([Ok (PyInt 1); Ok (PyInt 2)] : scripted pyval) PyNone).
Proof. apply (partition_nonpositive 0 ([Ok (PyInt 1); Ok (PyInt 2)] : scripted pyval) PyNone). lia. Defined.

(** ** [partition] without a pad as [takewhile] *)

(** The reference: [itertools.takewhile(pred, it)] as CPython implements
    it.  Once the predicate fails, the stop flag is set and every later
    call raises [StopIteration]; an exception of the source propagates
    without setting it. *)
Record takewhile (St B : Type) := mk_takewhile {
  tw_pred : B -> bool;
  tw_src : St;
  tw_stop : bool
}.
Arguments mk_takewhile {St B} _ _ _.
Arguments tw_pred {St B} _ _.
Arguments tw_src {St B} _.
Arguments tw_stop {St B} _.

Definition takewhile_next {St B} `{!PyIterator St B} : PyM (takewhile St B) B :=
  fun tw =>
    if tw_stop tw then (Raise StopIteration, tw)
    else match py_next (tw_src tw) with
         | (Ok x, s') =>
             if tw_pred tw x then (Ok x, mk_takewhile (tw_pred tw) s' false)
             else (Raise StopIteration, mk_takewhile (tw_pred tw) s' true)
         | (Raise e, s') => (Raise e, mk_takewhile (tw_pred tw) s' false)
         end.

#[export] Instance takewhile_iter {St B} `{!PyIterator St B} : PyIterator (takewhile St B) B :=
  takewhile_next.

(** C23. Equivalence without a pad: for any source and any number of
    calls, [list(partition(n, seq))] gives the same result as
    [list(takewhile(lambda c: len(c) >= n, partition_all(n, seq)))], and
    both leave the owned [partition_all] in the same state. *)
Theorem partition_nopad_takewhile {St A} `{!PyIterator St A} `{!EqDecision A} `{!PyStrValue A}
    n (pa : partition_all St) fuel :
  py_list fuel (mk_partition n pa (_NO_PAD (A := A))) =
    (fun '(r, tw) => (r, mk_partition n (tw_src tw) _NO_PAD))
      <$> py_list fuel (mk_takewhile (fun c => bool_decide (n <= Z.of_nat (length c))%Z) pa false).
Proof.
  revert pa. induction fuel as [|fuel IH]; intros pa; [done|]. simpl.
  rewrite py_next_partition, partition_next_eq. cbn [py_next takewhile_iter takewhile_next tw_stop tw_src tw_pred].
  destruct (py_next pa) as [[items|[]] pa1]; [|done|done].
  case_bool_decide; [rewrite decide_False by lia|rewrite decide_True by lia].
  - rewrite IH. by destruct (py_list fuel _) as [[[l|e] tw]|].
  - by rewrite decide_False by tauto.
Qed.
End Partition.
