(* ===== verification/Refinement.v ===== *)
(** * The chunkers as resumable iterators of the spec

    The spec's contract of a resumable iterator is the class [Denotes] of
    [Iterator]: a valid state stands for the list it has still to produce.
    This file proves that [partition_all] and [partition] keep that
    contract: over any source that denotes [xs], [partition_all(n, src)]
    denotes [chunks n xs] and [partition(n, src, pad)] denotes
    [finish n pad (chunks n xs)], for [n > 0].  The instances are built on
    the instance of the source, so chunkers over chunkers (at any depth)
    are covered by instance resolution.  Along any run, the tuples produced
    followed by what the state still denotes are the output of the fresh
    object. *)

From stdpp Require Import base list strings.
From Stdlib Require Import ZArith Lia.
From S2P Require Import Prelude Iterator PartitionAll Partition.
Import SeqIter Scripted PartitionAll Partition.

Module Refinement.

(** Along a run of successful calls from a valid state, the values
    produced followed by what the state reached still denotes are what
    the start denoted: [next] is deterministic, so the step the contract
    promises is the step taken. *)
Lemma denotes_yields_prefix {St A} `{!PyIterator St A} `{!Denotes St A} (s0 s : St) xs :
  valid s0 -> yields s0 xs s -> valid s /\ xs ++ denote s = denote s0.
Proof.
  intros Hv0 Hy. induction Hy as [s|s x s' xs s'' Hn _ IH]; [done|].
  pose proof (denote_step s Hv0) as Hst. unfold denotes_step in Hst.
  destruct (denote s) as [|x' l]; destruct Hst as (s1 & Hn1 & Hv1 & Hd1);
    rewrite Hn in Hn1; [discriminate|]. injection Hn1 as <- <-.
  destruct (IH Hv1) as [Hv Hd]. split; [done|]. simpl. by rewrite Hd, Hd1.
Qed.

Section pull_denote.
Context {St A : Type} `{!PyIterator St A} `{!Denotes St A}.

(** [pull k] over a valid source takes the first [k] elements of its
    denotation and leaves a valid source that denotes the rest. *)
Lemma pull_denote k (items : list A) (src : St) :
  valid src ->
  exists src', pull k items src = (Ok (items ++ take k (denote src)), src') /\
    valid src' /\ denote src' = drop k (denote src).
Proof.
  revert items src. induction k as [|k IH]; intros items src Hv; simpl.
  - exists src. by rewrite app_nil_r.
  - pose proof (denote_step src Hv) as Hst. unfold denotes_step in Hst.
    destruct (denote src) as [|x l];
      destruct Hst as (s1 & Hn & Hv1 & Hd1); rewrite Hn.
    + exists s1. by rewrite app_nil_r.
    + destruct (IH (items ++ [x]) s1 Hv1) as (s2 & Hp & Hv2 & Hd2).
      exists s2. rewrite Hp, Hd1 in *. by rewrite <- app_assoc.
Qed.

(** [__next__] keeps [_n]. *)
Lemma partition_all_next_n (pa pa' : partition_all St) (r : res (list A)) :
  partition_all_next pa = (r, pa') -> PartitionAll._n pa' = PartitionAll._n pa.
Proof.
  rewrite partition_all_next_pull.
  destruct (pull _ _ _) as [[items|e] src']; [case_decide|]; by intros [= _ <-].
Qed.

(** The abstraction of [partition_all]: a positive [_n] over a valid
    source, standing for the chunks of what the source denotes. *)
Definition partition_all_valid (pa : partition_all St) : Prop :=
  (0 < PartitionAll._n pa)%Z /\ valid (_seq pa).

Definition partition_all_denote (pa : partition_all St) : list (list A) :=
  chunks (Z.to_nat (PartitionAll._n pa)) (denote (_seq pa)).

Lemma partition_all_denotes_step (pa : partition_all St) :
  partition_all_valid pa -> denotes_step partition_all_valid partition_all_denote pa.
Proof.
  destruct pa as [n src]. intros [Hn Hv]. simpl in Hn, Hv. unfold denotes_step, partition_all_denote.
  rewrite py_next_partition_all, partition_all_next_pull. simpl.
  destruct (pull_denote (Z.to_nat n) [] src Hv) as (src' & -> & Hv' & Hd'). simpl.
  destruct (decide (denote src = [])) as [E|E].
  - rewrite E. simpl. exists (mk_partition_all n src'). unfold partition_all_valid. simpl.
    rewrite Hd', E, drop_nil, take_nil, decide_True by done. done.
  - rewrite chunks_unfold by (done || lia).
    rewrite decide_False by (rewrite length_zero_iff_nil; intros ?%take_nil_inv; [done|lia]).
    exists (mk_partition_all n src'). unfold partition_all_valid. simpl. by rewrite Hd'.
Qed.
End pull_denote.

#[export] Instance partition_all_denotes {St A} `{!PyIterator St A} `{!Denotes St A} :
    Denotes (partition_all St) (list A) := {|
  valid := partition_all_valid;
  denote := partition_all_denote;
  denote_step := partition_all_denotes_step
|}.

Section partition_denote.
Context {St A : Type} `{!PyIterator St A} `{!Denotes St A} `{!EqDecision A} `{!PyStrValue A}.

(** The abstraction of [partition]: its [_partition_all] built with the
    same [_n] (as [__init__] does) and valid; it stands for [finish] of
    what the [partition_all] denotes. *)
Definition partition_valid (p : partition St A) : Prop :=
  PartitionAll._n (_partition_all p) = _n p /\ partition_all_valid (_partition_all p).

Definition partition_denote (p : partition St A) : list (list A) :=
  finish (_n p) (_pad p) (partition_all_denote (_partition_all p)).

Lemma partition_denotes_step (p : partition St A) :
  partition_valid p -> denotes_step partition_valid partition_denote p.
Proof.
  destruct p as [n pa pad]. intros [Hnn Hv]. simpl in Hnn, Hv.
  pose proof (partition_all_denotes_step pa Hv) as Hst.
  unfold denotes_step, partition_denote, partition_valid in *. simpl.
  rewrite py_next_partition, partition_next_eq.
  destruct (partition_all_denote pa) as [|c cs] eqn:Ed;
    destruct Hst as (pa' & Hn' & Hv' & Hd'); rewrite Hn';
    rewrite py_next_partition_all in Hn'; apply partition_all_next_n in Hn'; simpl.
  - exists (mk_partition n pa' pad). simpl. by rewrite Hd', Hn'.
  - destruct Hv as [Hpos _].
    destruct (decide (Z.of_nat (length c) < n)%Z) as [Hlt|Hge];
      [destruct (decide (pad <> _NO_PAD))|];
      exists (mk_partition n pa' pad); simpl; rewrite Hd', Hn'; try done.
    assert (cs = []) as -> by (apply (chunks_short_last (Z.to_nat (PartitionAll._n pa))
      (denote (_seq pa)) c); [lia|done|lia]).
    done.
Qed.
End partition_denote.

#[export] Instance partition_denotes {St A} `{!PyIterator St A} `{!Denotes St A}
    `{!EqDecision A} `{!PyStrValue A} : Denotes (partition St A) (list A) := {|
  valid := partition_valid;
  denote := partition_denote;
  denote_step := partition_denotes_step
|}.

(** [partition.__next__] keeps [_n], [_pad] and the [_n] of the owned
    [partition_all], whatever the source does. *)
Lemma partition_next_fields {St A} `{!PyIterator St A} `{!EqDecision A} `{!PyStrValue A}
    (p p' : partition St A) (r : res (list A)) :
  partition_next p = (r, p') ->
  _n p' = _n p /\ _pad p' = _pad p /\
  PartitionAll._n (_partition_all p') = PartitionAll._n (_partition_all p).
Proof.
  destruct p as [n pa pad]. rewrite partition_next_eq.
  destruct (py_next pa) as [r' pa'] eqn:E. rewrite py_next_partition_all in E.
  apply partition_all_next_n in E.
  destruct r' as [items|e]; [repeat case_decide|]; by intros [= _ <-].
Qed.

(** Every state reachable from [partition(n, seq, pad)] keeps [n] and
    the [n] of its [partition_all]. *)
Lemma partition_reachable_fields {St A} `{!PyIterator St A} `{!EqDecision A} `{!PyStrValue A}
    n (src : St) (pad : A) st :
  reachable (partition_init n src pad) st ->
  _n st = n /\ PartitionAll._n (_partition_all st) = n.
Proof.
  induction 1 as [|st r st' _ (Hn & Hpa) Hstep]; [done|].
  rewrite py_next_partition in Hstep. apply partition_next_fields in Hstep.
  destruct Hstep as (-> & _ & ->). done.
Qed.

(** ** Properties *)

(** C27. Invariant of a run of [partition(n, src, pad)] over a source
    that denotes [xs], for [n > 0]: after the calls that returned the
    tuples [cs], the state is valid (its [partition_all] keeps the same
    [n] and a valid source), and [cs] followed by what the state still
    denotes is exactly [finish n pad (chunks n xs)], the output of the
    fresh object: no chunk is produced twice, skipped or out of order. *)
Theorem partition_produced_prefix {St A} `{!PyIterator St A} `{!Denotes St A}
    `{!EqDecision A} `{!PyStrValue A} n (src : St) (pad : A) cs st :
  (0 < n)%Z -> valid src -> yields (partition_init n src pad) cs st ->
  partition_valid st /\
  cs ++ partition_denote st = finish n pad (chunks (Z.to_nat n) (denote src)).
Proof.
  intros Hn Hv Hy.
  destruct (denotes_yields_prefix (A := list A) (partition_init n src pad) st cs) as [H1 H2];
    [repeat split; done|done|split; [exact H1|exact H2]].
Qed.

Lemma partition_produced_prefix_witness :
  partition_valid (mk_partition 2 (mk_partition_all 2 (mk_seq_iterator [PyInt 1; PyInt 2; PyInt 3] 2)) PyNone) /\
  [[PyInt 1; PyInt 2]] ++
    partition_denote (mk_partition 2 (mk_partition_all 2 (mk_seq_iterator [PyInt 1; PyInt 2; PyInt 3] 2)) PyNone)
  = finish 2 PyNone (chunks (Z.to_nat 2) (denote (_iter [PyInt 1; PyInt 2; PyInt 3]))).
Proof.
  apply (partition_produced_prefix 2 (_iter [PyInt 1; PyInt 2; PyInt 3]) PyNone); [lia|done|].
  econstructor; [reflexivity|constructor].
Defined.

(** C28. For any source, every tuple that a state reachable from
    [partition(n, seq, pad)] returns has exactly [n] elements: the
    agreement of [_n] with the [_n] of the owned [partition_all], which a
    single call needs, holds all along the run. *)
Theorem partition_reachable_ntuple {St A} `{!PyIterator St A} `{!EqDecision A} `{!PyStrValue A}
    n (src : St) (pad : A) st st' (c : list A) :
  reachable (partition_init n src pad) st -> py_next st = (Ok c, st') ->
  length c = Z.to_nat n.
Proof.
  intros Hr Hnext. destruct (partition_reachable_fields _ _ _ _ Hr) as (Hn & Hpa).
  rewrite <- Hn. apply (partition_next_ok_length st st'); [by rewrite Hn|done].
Qed.

Lemma partition_reachable_ntuple_witness :
  length [PyInt 3; PyNone] = Z.to_nat 2.
Proof.
  apply (partition_reachable_ntuple 2 ([Ok (PyInt 1); Ok (PyInt 2); Ok (PyInt 3)] : scripted pyval) PyNone
           (mk_partition 2 (mk_partition_all 2 ([Ok (PyInt 3)] : scripted pyval)) PyNone)
           (mk_partition 2 (mk_partition_all 2 ([] : scripted pyval)) PyNone)).
  - eapply reach_step; [apply reach_init|reflexivity].
  - reflexivity.
Defined.

(** [list()] of a [partition] over a source that keeps the contract:
    what the abstraction says, within [length (denote src) + 1] calls. *)
Lemma partition_py_list_denote {St A} `{!PyIterator St A} `{!Denotes St A}
    `{!EqDecision A} `{!PyStrValue A} n (src : St) (pad : A) fuel :
  (0 < n)%Z -> valid src -> length (denote src) < fuel ->
  exists st, py_list fuel (partition_init n src pad) =
               Some (Ok (finish n pad (chunks (Z.to_nat n) (denote src))), st) /\
             partition_valid st /\ partition_denote st = [].
Proof.
  intros Hn Hv Hf. pose proof (length_chunks_le (Z.to_nat n) (denote src)).
  pose proof (length_finish_le n pad (chunks (Z.to_nat n) (denote src))).
  destruct (denotes_py_list (partition_init n src pad) fuel) as (st & H1 & H2 & H3);
    [repeat split; done
    |change (length (finish n pad (chunks (Z.to_nat n) (denote src))) < fuel); lia
    |by exists st].
Qed.

(** C24. Refinement of the resumable-iterator contract: over any source
    that denotes [xs] (a list through [_iter], another chunker, ...),
    [partition_all(n, src)] with [n > 0] lists [chunks n xs] within
    [length xs + 1] calls, and ends in a valid state that denotes nothing,
    so it is itself a resumable iterator of the spec. *)
Theorem partition_all_resumable {St A} `{!PyIterator St A} `{!Denotes St A}
    n (src : St) fuel :
  (0 < n)%Z -> valid src -> length (denote src) < fuel ->
  exists st, py_list fuel (partition_all_init n src) =
               Some (Ok (chunks (Z.to_nat n) (denote src)), st) /\
             partition_all_valid st /\ partition_all_denote st = [].
Proof.
  intros Hn Hv Hf. pose proof (length_chunks_le (Z.to_nat n) (denote src)).
  destruct (denotes_py_list (partition_all_init n src) fuel) as (st & H1 & H2 & H3);
    [repeat split; done|change (length (chunks (Z.to_nat n) (denote src)) < fuel); lia
    |by exists st].
Qed.

Lemma partition_all_resumable_witness :
  exists st, py_list 6 (partition_all_init 2 (_iter [1; 2; 3; 4; 5])) =
               Some (Ok (chunks (Z.to_nat 2) (denote (_iter [1; 2; 3; 4; 5]))), st) /\
             partition_all_valid st /\ partition_all_denote st = [].
Proof. apply (partition_all_resumable 2 (_iter [1; 2; 3; 4; 5]) 6); [lia|done|simpl; lia]. Defined.

(** C25. Refinement for [partition]: over any source that denotes [xs],
    [partition(n, src, pad)] with [n > 0] lists [finish n pad (chunks n xs)]
    (full chunks, the last one padded or dropped) within [length xs + 1]
    calls, and ends in a valid state that denotes nothing. *)
Theorem partition_resumable {St A} `{!PyIterator St A} `{!Denotes St A}
    `{!EqDecision A} `{!PyStrValue A} n (src : St) (pad : A) fuel :
  (0 < n)%Z -> valid src -> length (denote src) < fuel ->
  exists st, py_list fuel (partition_init n src pad) =
               Some (Ok (finish n pad (chunks (Z.to_nat n) (denote src))), st) /\
             partition_valid st /\ partition_denote st = [].
Proof. apply partition_py_list_denote. Qed.

Lemma partition_resumable_witness :
  exists st, py_list 4 (partition_init 2 (_iter [PyInt 1; PyInt 2; PyInt 3]) PyNone) =
               Some (Ok (finish 2 PyNone (chunks (Z.to_nat 2) (denote (_iter [PyInt 1; PyInt 2; PyInt 3])))), st) /\
             partition_valid st /\ partition_denote st = [].
Proof.
  apply (partition_resumable 2 (_iter [PyInt 1; PyInt 2; PyInt 3]) PyNone 4); [lia|done|simpl; lia].
Defined.

(** C26. Chunking the output of [partition]: [partition_all(m, partition(n, xs, pad))],
    where [_iter] hands the inner object over unchanged, lists the chunks
    by [m] of the [partition] by [n] of [xs], for [m, n > 0], although the
    inner object moves its state on its last call when it drops a short
    chunk (so its exhaustion is not the sticky one C2 asks of a source). *)
Theorem partition_all_over_partition {A} `{!EqDecision A} `{!PyStrValue A}
    m n (xs : list A) (pad : A) fuel :
  (0 < m)%Z -> (0 < n)%Z -> length xs < fuel ->
  exists st, py_list fuel (partition_all_init m (_iter_itertool (partition_new n xs pad))) =
    Some (Ok (chunks (Z.to_nat m) (finish n pad (chunks (Z.to_nat n) xs))), st).
Proof.
  intros Hm Hn Hf.
  pose proof (length_chunks_le (Z.to_nat n) xs).
  pose proof (length_finish_le n pad (chunks (Z.to_nat n) xs)).
  pose proof (length_chunks_le (Z.to_nat m) (finish n pad (chunks (Z.to_nat n) xs))).
  destruct (denotes_py_list (partition_all_init m (_iter_itertool (partition_new n xs pad))) fuel)
    as (st & Hst & _); [repeat split; (done || lia)| |by exists st].
  change (length (chunks (Z.to_nat m) (finish n pad (chunks (Z.to_nat n) xs))) < fuel). lia.
Qed.

Lemma partition_all_over_partition_witness :
  exists st, py_list 6 (partition_all_init 2 (_iter_itertool
                (partition_new 2 [PyInt 1; PyInt 2; PyInt 3; PyInt 4; PyInt 5] _NO_PAD))) =
    Some (Ok (chunks (Z.to_nat 2) (finish 2 _NO_PAD
                (chunks (Z.to_nat 2) [PyInt 1; PyInt 2; PyInt 3; PyInt 4; PyInt 5]))), st).
Proof.
  apply (partition_all_over_partition 2 2 [PyInt 1; PyInt 2; PyInt 3; PyInt 4; PyInt 5] _NO_PAD 6);
    [lia|lia|simpl; lia].
Defined.

End Refinement.
