(* ===== verification/Toolz.v ===== *)
(** * The toolz original of [partition]

    The module docstring (src/picklable_itertools/extras.py, lines 1-4)
    presents [partition] and [partition_all] as picklable
    reimplementations of the generators of Matthew Rocklin's [toolz].
    toolz's [partition] is
<<
    def partition(n, seq, pad=no_pad):
        args = [iter(seq)] * n
        if pad is no_pad:
            return zip( *args)
        else:
            return zip_longest( *args, fillvalue=pad)
>>
    that is, [n] references to one shared iterator handed to CPython's
    [zip] or [zip_longest], and a sentinel [no_pad] tested by identity.
    This file models those two C iterators as CPython implements them
    ([zip_next] and [zip_longest_next] of Python/bltinmodule.c and
    Modules/itertoolsmodule.c), over one source shared by all slots, and
    proves that [partition] computes what the toolz original computes
    over any source that keeps the resumable-iterator contract, for every
    pad that is not equal to ['__no_pad__'].  They differ on that pad
    value, and on a source that raises: [zip_longest] is dead after any
    exception, [partition] pulls again. *)

From stdpp Require Import base list strings.
From Stdlib Require Import ZArith Lia.
From S2P Require Import Prelude Iterator PartitionAll Partition Refinement.
Import SeqIter Scripted PartitionAll Partition Refinement.

Module Toolz.

(** ** [zip( *args)] with every argument the same iterator *)

(** The state of a [zip] object: its number of arguments and the one
    iterator they all are. *)
Record zip_iter (St : Type) := mk_zip {
  zip_size : nat;
  zip_src : St
}.
Arguments mk_zip {St} _ _.
Arguments zip_size {St} _.
Arguments zip_src {St} _.

Section zip.
Context {St A : Type} `{!PyIterator St A}.

(** The loop of [zip_next]: [next] on each argument in turn; the first
    exception (exhaustion included) is returned at once and the items of
    the round are lost. *)
Fixpoint zip_round (k : nat) (items : list A) (src : St) : res (list A) * St :=
  match k with
  | 0 => (Ok items, src)
  | S k' =>
      match py_next src with
      | (Ok x, src') => zip_round k' (items ++ [x]) src'
      | (Raise e, src') => (Raise e, src')
      end
  end.

(** [zip_next]: a [zip] of no arguments is empty. *)
Definition zip_next : PyM (zip_iter St) (list A) :=
  fun z =>
    if decide (zip_size z = 0) then (Raise StopIteration, z)
    else let '(r, src') := zip_round (zip_size z) [] (zip_src z) in (r, mk_zip (zip_size z) src').

#[global] Instance zip_iterator : PyIterator (zip_iter St) (list A) := zip_next.

Lemma py_next_zip (z : zip_iter St) : py_next z = zip_next z.
Proof. reflexivity. Qed.
End zip.

(** The full chunks before the first short one: what [zip] makes of a
    chunking. *)
Fixpoint full_prefix {A} (k : nat) (cs : list (list A)) : list (list A) :=
  match cs with
  | [] => []
  | c :: cs' => if decide (length c < k) then [] else c :: full_prefix k cs'
  end.

Lemma length_full_prefix_le {A} k (cs : list (list A)) : length (full_prefix k cs) <= length cs.
Proof. induction cs as [|c cs IH]; simpl; [lia|case_decide; simpl; lia]. Qed.

Section zip_denote.
Context {St A : Type} `{!PyIterator St A} `{!Denotes St A}.

(** A round over a valid source: [k] elements if it has them, otherwise
    [StopIteration] with the source drained. *)
Lemma zip_round_denote k (items : list A) (src : St) :
  valid src ->
  (k <= length (denote src) -> exists src', zip_round k items src =
     (Ok (items ++ take k (denote src)), src') /\ valid src' /\ denote src' = drop k (denote src)) /\
  (length (denote src) < k -> exists src', zip_round k items src =
     (Raise StopIteration, src') /\ valid src' /\ denote src' = []).
Proof.
  revert items src. induction k as [|k IH]; intros items src Hv; simpl.
  { split; [intros _; exists src; by rewrite app_nil_r|lia]. }
  pose proof (denote_step src Hv) as Hst. unfold denotes_step in Hst.
  destruct (denote src) as [|x l]; destruct Hst as (s1 & Hn & Hv1 & Hd1); rewrite Hn; simpl.
  - split; [lia|]. intros _. by exists s1.
  - destruct (IH (items ++ [x]) s1 Hv1) as [IH1 IH2]. rewrite Hd1 in IH1, IH2. split.
    + intros Hk. destruct IH1 as (s2 & -> & ? & ?); [lia|]. exists s2. by rewrite <- app_assoc.
    + intros Hk. apply IH2. lia.
Qed.

Definition zip_valid (z : zip_iter St) : Prop := 0 < zip_size z /\ valid (zip_src z).

Definition zip_denote (z : zip_iter St) : list (list A) :=
  full_prefix (zip_size z) (chunks (zip_size z) (denote (zip_src z))).

Lemma zip_denotes_step (z : zip_iter St) : zip_valid z -> denotes_step zip_valid zip_denote z.
Proof.
  destruct z as [k src]. intros [Hk Hv]. simpl in Hk, Hv.
  unfold denotes_step, zip_denote, zip_valid. simpl.
  rewrite py_next_zip. unfold zip_next. simpl.
  destruct (zip_round_denote k [] src Hv) as [Hfull Hshort].
  destruct (decide (k <= length (denote src))) as [Hle|Hlt].
  - destruct (Hfull Hle) as (src' & Hr & Hv' & Hd').
    rewrite chunks_unfold by (lia || (intros E; rewrite E in Hle; simpl in Hle; lia)).
    simpl. rewrite decide_False by (rewrite length_take; lia).
    rewrite decide_False by lia. rewrite Hr. simpl. exists (mk_zip k src'). simpl. by rewrite Hd'.
  - destruct (Hshort ltac:(lia)) as (src' & Hr & Hv' & Hd').
    replace (full_prefix k (chunks k (denote src))) with (@nil (list A)).
    + rewrite decide_False by lia. rewrite Hr. exists (mk_zip k src'). simpl. by rewrite Hd'.
    + destruct (decide (denote src = [])) as [E|E]; [by rewrite E|].
      rewrite chunks_unfold, take_ge, drop_ge by (done || lia). simpl. by rewrite decide_True by lia.
Qed.
End zip_denote.

#[export] Instance zip_denotes {St A} `{!PyIterator St A} `{!Denotes St A} :
    Denotes (zip_iter St) (list A) := {|
  valid := zip_valid;
  denote := zip_denote;
  denote_step := zip_denotes_step
|}.

(** ** [zip_longest( *args, fillvalue=fill)] with every argument the same iterator

    CPython's state: the tuple of iterators, where a slot whose iterator
    ran out is set to NULL ([false] here), the count [numactive] of slots
    not yet NULL, and the fill value.  All slots hold the one shared
    source. *)
Record zip_longest (St A : Type) := mk_zip_longest {
  zl_its : list bool;
  zl_numactive : nat;
  zl_fill : A;
  zl_src : St
}.
Arguments mk_zip_longest {St A} _ _ _ _.
Arguments zl_its {St A} _.
Arguments zl_numactive {St A} _.
Arguments zl_fill {St A} _.
Arguments zl_src {St A} _.

Section zip_longest.
Context {St A : Type} `{!PyIterator St A}.

(** The loop of [zip_longest_next] over the slots, left to right: a NULL
    slot gives the fill value; an iterator slot gives its next element;
    when it runs out [numactive] goes down, and either the whole call
    ends ([numactive] reached 0, or the exception is not
    [StopIteration]: then [numactive] is set to 0 and the slot is left as
    it is) or the slot becomes NULL and gives the fill value. *)
Fixpoint zl_slots (fill : A) (its : list bool) (num : nat) (src : St) :
    res (list A) * (list bool * nat * St) :=
  match its with
  | [] => (Ok [], ([], num, src))
  | false :: its' =>
      let '(r, (its'', num', src')) := zl_slots fill its' num src in
      (res_map (cons fill) r, (false :: its'', num', src'))
  | true :: its' =>
      match py_next src with
      | (Ok x, src1) =>
          let '(r, (its'', num', src')) := zl_slots fill its' num src1 in
          (res_map (cons x) r, (true :: its'', num', src'))
      | (Raise e, src1) =>
          if decide (num - 1 = 0 \/ e <> StopIteration) then (Raise e, (true :: its', 0, src1))
          else
            let '(r, (its'', num', src')) := zl_slots fill its' (num - 1) src1 in
            (res_map (cons fill) r, (false :: its'', num', src'))
      end
  end.

(** [zip_longest_next]: no slots, or no active slot left, is exhaustion. *)
Definition zip_longest_next : PyM (zip_longest St A) (list A) :=
  fun z =>
    if decide (length (zl_its z) = 0) then (Raise StopIteration, z)
    else if decide (zl_numactive z = 0) then (Raise StopIteration, z)
    else
      let '(r, (its, num, src)) := zl_slots (zl_fill z) (zl_its z) (zl_numactive z) (zl_src z) in
      (r, mk_zip_longest its num (zl_fill z) src).

#[global] Instance zip_longest_iterator : PyIterator (zip_longest St A) (list A) :=
  zip_longest_next.

Lemma py_next_zip_longest (z : zip_longest St A) : py_next z = zip_longest_next z.
Proof. reflexivity. Qed.
End zip_longest.

(** The number of slots that still hold the iterator. *)
Fixpoint count_active (its : list bool) : nat :=
  match its with
  | [] => 0
  | b :: its' => (if b then 1 else 0) + count_active its'
  end.

Lemma count_active_app its1 its2 :
  count_active (its1 ++ its2) = count_active its1 + count_active its2.
Proof. induction its1 as [|[] its1 IH]; simpl; lia. Qed.

Lemma count_active_replicate b k :
  count_active (replicate k b) = if b then k else 0.
Proof. induction k as [|k IH]; destruct b; simpl in *; lia. Qed.

(** A tuple of [k] slots: the chunk, then the fill value in the slots
    whose iterator ran out. *)
Definition fill_to {A} (k : nat) (fill : A) (c : list A) : list A :=
  c ++ replicate (k - length c) fill.

Section zip_longest_denote.
Context {St A : Type} `{!PyIterator St A} `{!Denotes St A}.
Implicit Types (fill : A) (its : list bool) (src : St).

(** Over a drained source every iterator slot runs out: with more
    active slots counted than there are iterator slots, all of them turn
    NULL and the round is all fill values; when the count reaches 0 on
    the way, the call ends in [StopIteration]. *)
Lemma zl_slots_drained fill its num src :
  valid src -> denote src = [] ->
  (count_active its = 0 \/ count_active its < num ->
   exists src', zl_slots fill its num src =
     (Ok (replicate (length its) fill), (replicate (length its) false, num - count_active its, src')) /\
     valid src' /\ denote src' = []) /\
  (0 < count_active its -> count_active its = num ->
   exists its' src', zl_slots fill its num src = (Raise StopIteration, (its', 0, src')) /\
     valid src' /\ denote src' = []).
Proof.
  revert num src. induction its as [|[] its IH]; intros num src Hv Hd; simpl.
  - split; [intros _; exists src; by rewrite Nat.sub_0_r|lia].
  - pose proof (denote_step src Hv) as Hst. unfold denotes_step in Hst. rewrite Hd in Hst.
    destruct Hst as (s1 & -> & Hv1 & Hd1).
    destruct (IH (num - 1) s1 Hv1 Hd1) as [IH1 IH2]. split.
    + intros Hc. rewrite decide_False by (intros [?|?]; [lia|done]).
      destruct IH1 as (s2 & -> & ? & ?); [lia|]. exists s2. split_and!; [|done|done].
      simpl. do 3 f_equal. lia.
    + intros Hc0 Hc. case_decide as Hdec.
      * by exists (true :: its), s1.
      * destruct IH2 as (its' & s2 & -> & ? & ?); [lia|lia|]. by exists (false :: its'), s2.
  - destruct (IH num src Hv Hd) as [IH1 IH2]. split.
    + intros Hc. destruct IH1 as (s2 & -> & ? & ?); [done|]. by exists s2.
    + intros Hc0 Hc. destruct IH2 as (its' & s2 & -> & ? & ?); [done|done|].
      by exists (false :: its'), s2.
Qed.

(** [m] iterator slots over a source with at least [m] elements left
    take the next [m] elements, and the rest of the round goes on from
    there. *)
Lemma zl_slots_prefix fill m rest num src :
  valid src -> m <= length (denote src) ->
  exists src_m, valid src_m /\ denote src_m = drop m (denote src) /\
    zl_slots fill (replicate m true ++ rest) num src =
      let '(r, (its'', num', src')) := zl_slots fill rest num src_m in
      (res_map (app (take m (denote src))) r, (replicate m true ++ its'', num', src')).
Proof.
  revert src. induction m as [|m IH]; intros src Hv Hm; simpl.
  - exists src. split_and!; [done|done|].
    destruct (zl_slots fill rest num src) as [[|] [[? ?] ?]]; done.
  - pose proof (denote_step src Hv) as Hst. unfold denotes_step in Hst.
    destruct (denote src) as [|x l]; [simpl in Hm; lia|].
    destruct Hst as (s1 & -> & Hv1 & Hd1).
    destruct (IH s1 Hv1) as (s2 & Hv2 & Hd2 & Heq); [rewrite Hd1; simpl in Hm; lia|].
    exists s2. rewrite Hd1 in Hd2. split_and!; [done|done|]. rewrite Heq.
    destruct (zl_slots fill rest num s2) as [[|] [[? ?] ?]]; by rewrite ?Hd1.
Qed.

(** The abstraction of a [zip_longest] over [k] copies of one source: a
    live object stands for the chunks by [k] of what the source denotes,
    each padded with the fill value; it is live until [numactive] drops
    to 0, and while some slot is NULL the source is drained. *)
Definition zl_valid (z : zip_longest St A) : Prop :=
  valid (zl_src z) /\
  (zl_numactive z = 0 \/
   (0 < length (zl_its z) /\ zl_numactive z = count_active (zl_its z) /\
    (zl_its z = replicate (length (zl_its z)) true \/ denote (zl_src z) = []))).

Definition zl_denote (z : zip_longest St A) : list (list A) :=
  if decide (zl_numactive z = 0) then []
  else map (fill_to (length (zl_its z)) (zl_fill z))
           (chunks (length (zl_its z)) (denote (zl_src z))).

Lemma zl_denotes_step (z : zip_longest St A) : zl_valid z -> denotes_step zl_valid zl_denote z.
Proof.
  destruct z as [its num fill src]. intros [Hv Hinv]. simpl in Hv, Hinv.
  unfold denotes_step, zl_denote, zl_valid. simpl. rewrite py_next_zip_longest.
  unfold zip_longest_next. simpl.
  destruct (decide (num = 0)) as [->|Hnum].
  { simpl. case_decide; by exists (mk_zip_longest its 0 fill src). }
  destruct Hinv as [?|(Hlen & Hcnt & Hinv)]; [done|].
  rewrite (decide_False (P := length its = 0)) by lia. simpl.
  destruct (decide (denote src = [])) as [Hd|Hd].
  - rewrite Hd. simpl.
    destruct (proj2 (zl_slots_drained fill its num src Hv Hd) ltac:(lia) ltac:(lia))
      as (its' & src' & -> & Hv' & Hd').
    exists (mk_zip_longest its' 0 fill src'). simpl. split_and!; [done|done|by left|done].
  - destruct Hinv as [Hall|]; [|done].
    remember (length its) as k eqn:Hk. rewrite Hall in Hcnt |- *. clear Hall Hk its.
    rewrite count_active_replicate in Hcnt. subst num.
    destruct (decide (k <= length (denote src))) as [Hle|Hlt].
    + destruct (zl_slots_prefix fill k [] k src Hv Hle) as (src_k & Hvk & Hdk & Heq).
      rewrite app_nil_r in Heq. simpl in Heq. rewrite !app_nil_r in Heq. rewrite Heq.
      rewrite chunks_unfold by (lia || done). simpl.
      replace (fill_to k fill (take k (denote src))) with (take k (denote src))
        by (unfold fill_to; rewrite length_take; replace (k - _) with 0 by lia; by rewrite app_nil_r).
      exists (mk_zip_longest (replicate k true) k fill src_k). simpl.
      rewrite length_replicate, decide_False by lia. rewrite Hdk.
      split_and!; [done|done|right; split_and!; [lia|by rewrite count_active_replicate|by left]|done].
    + remember (length (denote src)) as L eqn:HLd.
      assert (HL : 0 < L) by (subst L; destruct (denote src); [done|simpl; lia]).
      rewrite chunks_unfold, take_ge, drop_ge by (lia || done). simpl.
      replace (replicate k true) with (replicate L true ++ replicate (k - L) true)
        by (rewrite <- replicate_add; f_equal; lia).
      destruct (zl_slots_prefix fill L (replicate (k - L) true) k src Hv ltac:(lia))
        as (src_L & HvL & HdL & ->).
      rewrite drop_ge in HdL by lia.
      destruct (proj1 (zl_slots_drained fill (replicate (k - L) true) k src_L HvL HdL)
        ltac:(rewrite count_active_replicate; lia)) as (src' & -> & Hv' & Hd').
      rewrite length_replicate, count_active_replicate. simpl.
      exists (mk_zip_longest (replicate L true ++ replicate (k - L) false) (k - (k - L)) fill src').
      simpl. rewrite length_app, !length_replicate, Hd', decide_False by lia.
      rewrite count_active_app, !count_active_replicate.
      replace (L + (k - L)) with k by lia.
      split_and!; [|done|right; split_and!; [lia|lia|by right]|done].
      unfold fill_to. rewrite take_ge by lia. do 4 f_equal. lia.
Qed.
End zip_longest_denote.

#[export] Instance zip_longest_denotes {St A} `{!PyIterator St A} `{!Denotes St A} :
    Denotes (zip_longest St A) (list A) := {|
  valid := zl_valid;
  denote := zl_denote;
  denote_step := zl_denotes_step
|}.

(** ** toolz's [partition]

    The object it returns: a [zip] or a [zip_longest] over [n] copies of
    [iter(seq)]; [pad] is [None] for toolz's [no_pad], which is tested by
    identity, so no user value can be mistaken for it. *)
Inductive toolz_partition (St A : Type) :=
| TZip (z : zip_iter St)
| TZipLongest (z : zip_longest St A).
Arguments TZip {St A} z.
Arguments TZipLongest {St A} z.

Definition toolz_partition_new {St A} (n : Z) (it : St) (pad : option A) : toolz_partition St A :=
  match pad with
  | None => TZip (mk_zip (Z.to_nat n) it)
  | Some p => TZipLongest (mk_zip_longest (replicate (Z.to_nat n) true) (Z.to_nat n) p it)
  end.

Section toolz_partition.
Context {St A : Type} `{!PyIterator St A}.

Definition toolz_partition_next : PyM (toolz_partition St A) (list A) :=
  fun t =>
    match t with
    | TZip z => let '(r, z') := zip_next z in (r, TZip z')
    | TZipLongest z => let '(r, z') := zip_longest_next z in (r, TZipLongest z')
    end.

#[global] Instance toolz_partition_iterator : PyIterator (toolz_partition St A) (list A) :=
  toolz_partition_next.

Context `{!Denotes St A}.

Definition toolz_valid (t : toolz_partition St A) : Prop :=
  match t with TZip z => zip_valid z | TZipLongest z => zl_valid z end.

Definition toolz_denote (t : toolz_partition St A) : list (list A) :=
  match t with TZip z => zip_denote z | TZipLongest z => zl_denote z end.

Lemma toolz_denotes_step (t : toolz_partition St A) :
  toolz_valid t -> denotes_step toolz_valid toolz_denote t.
Proof.
  unfold denotes_step. destruct t as [z|z]; simpl; intros Hv;
    unfold py_next, toolz_partition_iterator, toolz_partition_next.
  - pose proof (zip_denotes_step z Hv) as Hst. unfold denotes_step in Hst.
    rewrite py_next_zip in Hst.
    destruct (zip_denote z); destruct Hst as (z' & -> & ? & ?); by exists (TZip z').
  - pose proof (zl_denotes_step z Hv) as Hst. unfold denotes_step in Hst.
    rewrite py_next_zip_longest in Hst.
    destruct (zl_denote z); destruct Hst as (z' & -> & ? & ?); by exists (TZipLongest z').
Qed.
End toolz_partition.

#[export] Instance toolz_partition_denotes {St A} `{!PyIterator St A} `{!Denotes St A} :
    Denotes (toolz_partition St A) (list A) := {|
  valid := toolz_valid;
  denote := toolz_denote;
  denote_step := toolz_denotes_step
|}.

(** ** [partition] against the toolz original *)
Section against_toolz.
Context {A : Type} `{!EqDecision A} `{!PyStrValue A}.

(** Without a pad, [partition] keeps the full chunks before the first
    short one, as [zip] does. *)
Lemma finish_nopad n (cs : list (list A)) :
  (0 < n)%Z -> finish n _NO_PAD cs = full_prefix (Z.to_nat n) cs.
Proof.
  intros Hn. induction cs as [|c cs IH]; [done|]. simpl.
  destruct (decide (length c < Z.to_nat n)).
  - rewrite decide_True by lia. by rewrite decide_False by tauto.
  - rewrite decide_False by lia. by rewrite IH.
Qed.

(** With a pad, [partition] pads every chunk, as [zip_longest] does. *)
Lemma finish_pad n (pad : A) (cs : list (list A)) :
  pad <> _NO_PAD -> finish n pad cs = map (fill_to (Z.to_nat n) pad) cs.
Proof.
  intros Hpad. induction cs as [|c cs IH]; [done|]. simpl. rewrite IH.
  unfold fill_to. repeat case_decide; try tauto.
  - unfold pad_to. do 3 f_equal. lia.
  - replace (Z.to_nat n - length c) with 0 by lia. by rewrite app_nil_r.
Qed.

(** [list()] of toolz's [partition] over a source that keeps the
    contract: what the abstraction says, within [length (denote src) + 1]
    calls. *)
Lemma toolz_py_list_denote {St} `{!PyIterator St A} `{!Denotes St A} n (src : St)
    (pad : option A) fuel :
  (0 < n)%Z -> valid src -> length (denote src) < fuel ->
  exists st, py_list fuel (toolz_partition_new n src pad) =
    Some (Ok (match pad with
              | None => full_prefix (Z.to_nat n) (chunks (Z.to_nat n) (denote src))
              | Some p => map (fill_to (Z.to_nat n) p) (chunks (Z.to_nat n) (denote src))
              end), st).
Proof.
  intros Hn Hv Hf. pose proof (length_chunks_le (Z.to_nat n) (denote src) ltac:(lia)).
  destruct (denotes_py_list (toolz_partition_new n src pad) fuel) as (st & Hst & _).
  - destruct pad as [p|]; simpl; unfold zl_valid, zip_valid; simpl.
    + split; [done|]. right. rewrite length_replicate, count_active_replicate.
      split_and!; [lia|done|by left].
    + split; [lia|done].
  - destruct pad as [p|]; simpl; unfold zl_denote, zip_denote; simpl.
    + rewrite length_replicate, decide_False, length_map by lia. lia.
    + pose proof (length_full_prefix_le (Z.to_nat n) (chunks (Z.to_nat n) (denote src))). lia.
  - exists st. rewrite Hst. destruct pad as [p|]; simpl; unfold zl_denote, zip_denote; simpl; [|done].
    rewrite length_replicate, decide_False by lia. done.
Qed.
End against_toolz.

Lemma full_prefix_full {B} k (full rest : list (list B)) :
  Forall (fun c => length c = k) full -> full_prefix k (full ++ rest) = full ++ full_prefix k rest.
Proof. induction 1 as [|c full Hc _ IH]; [done|]. simpl. rewrite decide_False by lia. by rewrite IH. Qed.

Lemma scripted_values_ok {B} (ys : list B) : scripted_values (Ok <$> ys) = ys.
Proof. unfold scripted_values. induction ys as [|y ys IH]; [done|]. simpl. f_equal. exact IH. Qed.

Lemma scripted_ok_valid {B} (ys : list B) : Forall (fun r => exists x, r = Ok x) (Ok <$> ys).
Proof. apply Forall_fmap, Forall_true. intros y. by exists y. Qed.

(** ** Properties *)

(** C31. [partition] with a pad is toolz's [partition] with that pad:
    for [n > 0], any source that keeps the resumable-iterator contract and
    any pad other than ['__no_pad__'], [list(partition(n, src, pad))] and
    [list(zip_longest( *[src] * n, fillvalue=pad))] return the same
    tuples, within [length xs + 1] calls. *)
Theorem partition_pad_toolz {St A} `{!PyIterator St A} `{!Denotes St A}
    `{!EqDecision A} `{!PyStrValue A} n (src : St) (pad : A) fuel :
  (0 < n)%Z -> valid src -> pad <> _NO_PAD -> length (denote src) < fuel ->
  exists cs st st', py_list fuel (partition_init n src pad) = Some (Ok cs, st) /\
    py_list fuel (toolz_partition_new n src (Some pad)) = Some (Ok cs, st').
Proof.
  intros Hn Hv Hpad Hf.
  destruct (partition_py_list_denote n src pad fuel Hn Hv Hf) as (st & Hst & _).
  destruct (toolz_py_list_denote n src (Some pad) fuel Hn Hv Hf) as (st' & Hst').
  exists (finish n pad (chunks (Z.to_nat n) (denote src))), st, st'. split; [done|].
  by rewrite finish_pad.
Qed.

Lemma partition_pad_toolz_witness :
  exists cs st st',
    py_list 4 (partition_init 2 (_iter [PyInt 1; PyInt 2; PyInt 3]) PyNone) = Some (Ok cs, st) /\
    py_list 4 (toolz_partition_new 2 (_iter [PyInt 1; PyInt 2; PyInt 3]) (Some PyNone)) = Some (Ok cs, st').
Proof.
  apply (partition_pad_toolz 2 (_iter [PyInt 1; PyInt 2; PyInt 3]) PyNone 4);
    [lia|done|discriminate|simpl; lia].
Defined.

(** C32. [partition] without a pad is toolz's [partition] without one:
    for [n > 0] and any source that keeps the contract,
    [list(partition(n, src))] and [list(zip( *[src] * n))] return the same
    tuples, the full chunks, within [length xs + 1] calls. *)
Theorem partition_nopad_toolz {St A} `{!PyIterator St A} `{!Denotes St A}
    `{!EqDecision A} `{!PyStrValue A} n (src : St) fuel :
  (0 < n)%Z -> valid src -> length (denote src) < fuel ->
  exists cs st st', py_list fuel (partition_init n src _NO_PAD) = Some (Ok cs, st) /\
    py_list fuel (toolz_partition_new (A := A) n src None) = Some (Ok cs, st').
Proof.
  intros Hn Hv Hf.
  destruct (partition_py_list_denote n src _NO_PAD fuel Hn Hv Hf) as (st & Hst & _).
  destruct (toolz_py_list_denote (A := A) n src None fuel Hn Hv Hf) as (st' & Hst').
  exists (finish n _NO_PAD (chunks (Z.to_nat n) (denote src))), st, st'. split; [done|].
  by rewrite finish_nopad.
Qed.

Lemma partition_nopad_toolz_witness :
  exists cs st st',
    py_list 6 (partition_init 2 (_iter [PyInt 1; PyInt 2; PyInt 3; PyInt 4; PyInt 5]) _NO_PAD) =
      Some (Ok cs, st) /\
    py_list 6 (toolz_partition_new (A := pyval) 2 (_iter [PyInt 1; PyInt 2; PyInt 3; PyInt 4; PyInt 5]) None) =
      Some (Ok cs, st').
Proof.
  apply (partition_nopad_toolz 2 (_iter [PyInt 1; PyInt 2; PyInt 3; PyInt 4; PyInt 5]) 6);
    [lia|done|simpl; lia].
Defined.

(** C33. The sentinels differ: toolz tests [pad is no_pad] on a private
    object, this [partition] tests [pad != '__no_pad__'].  For [n > 0] and
    a list whose length [n] does not divide, with the [str]
    ['__no_pad__'] as pad, toolz lists one tuple more (the short chunk,
    padded) than this [partition] (which drops it). *)
Theorem partition_toolz_sentinel n (xs : list pyval) fuel :
  (0 < n)%Z -> length xs < fuel -> length xs mod Z.to_nat n <> 0 ->
  exists cs cs' st st',
    py_list fuel (partition_new n xs (PyStr "__no_pad__")) = Some (Ok cs, st) /\
    py_list fuel (toolz_partition_new n (_iter xs) (Some (PyStr "__no_pad__"))) = Some (Ok cs', st') /\
    length cs' = S (length cs).
Proof.
  intros Hn Hf Hmod.
  assert (Hv : valid (_iter xs)) by done.
  destruct (partition_py_list_denote n (_iter xs) (PyStr "__no_pad__") fuel Hn Hv Hf) as (st & Hst & _).
  destruct (toolz_py_list_denote n (_iter xs) (Some (PyStr "__no_pad__")) fuel Hn Hv Hf) as (st' & Hst').
  simpl in Hst, Hst'. rewrite drop_0 in Hst, Hst'.
  assert (Hfin : forall cs, finish n (PyStr "__no_pad__") cs = full_prefix (Z.to_nat n) cs)
    by (intros cs; exact (finish_nopad (A := pyval) n cs Hn)).
  rewrite Hfin in Hst.
  destruct (decide (xs = [])) as [->|Hne]; [by rewrite Nat.Div0.mod_0_l in Hmod|].
  destruct (chunks_shape (Z.to_nat n) xs) as (full & last & Hc & Hfull & Hl & Hlen); [lia|done|].
  rewrite Hc in Hst, Hst'. rewrite full_prefix_full in Hst by done.
  assert (length last < Z.to_nat n).
  { destruct (decide (length last = Z.to_nat n)) as [E|]; [|lia].
    exfalso. apply Hmod. rewrite Hlen. by apply last_chunk_full_iff. }
  simpl in Hst. rewrite decide_True in Hst by done. rewrite app_nil_r in Hst.
  eexists _, _, st, st'. split_and!; [exact Hst|exact Hst'|].
  rewrite length_map, length_app. simpl. lia.
Qed.

Lemma partition_toolz_sentinel_witness :
  exists cs cs' st st',
    py_list 4 (partition_new 2 [PyInt 1; PyInt 2; PyInt 3] (PyStr "__no_pad__")) = Some (Ok cs, st) /\
    py_list 4 (toolz_partition_new 2 (_iter [PyInt 1; PyInt 2; PyInt 3]) (Some (PyStr "__no_pad__"))) =
      Some (Ok cs', st') /\
    length cs' = S (length cs).
Proof. apply (partition_toolz_sentinel 2 [PyInt 1; PyInt 2; PyInt 3] 4); simpl; [lia|lia|discriminate]. Defined.

(** C34. After an upstream fault the two part ways: over a source whose
    first call raises an exception other than [StopIteration] and which
    then yields [ys], both [partition(n, src, pad)] and toolz's
    [zip_longest] raise that exception; [zip_longest] has then set
    [numactive] to 0 and is exhausted for good, while [partition] pulls
    again and lists the padded chunks of [ys]. *)
Theorem partition_toolz_after_fault {A} `{!EqDecision A} `{!PyStrValue A}
    n (ys : list A) (pad : A) e fuel :
  (0 < n)%Z -> e <> StopIteration -> pad <> _NO_PAD -> length ys < fuel ->
  (exists p1 st, py_next (partition_init n (Raise e :: (Ok <$> ys) : scripted A) pad) = (Raise e, p1) /\
     py_list fuel p1 = Some (Ok (map (fill_to (Z.to_nat n) pad) (chunks (Z.to_nat n) ys)), st)) /\
  (exists t1, py_next (toolz_partition_new n (Raise e :: (Ok <$> ys) : scripted A) (Some pad)) =
     (Raise e, t1) /\ exhausted t1).
Proof.
  intros Hn He Hpad Hf. assert (Ek : Z.to_nat n = S (Z.to_nat n - 1)) by lia. split.
  - exists (mk_partition n (mk_partition_all n (Ok <$> ys : scripted A)) pad).
    assert (Hv : valid (Ok <$> ys : scripted A)) by exact (scripted_ok_valid ys).
    destruct (partition_py_list_denote (St := scripted A) n (Ok <$> ys) pad fuel Hn Hv)
      as (st & Hst & _); [change (length (scripted_values (Ok <$> ys)) < fuel);
                          by rewrite (scripted_values_ok ys)|].
    exists st. split.
    + unfold partition_init, partition_all_init.
      rewrite py_next_partition, partition_next_eq, py_next_partition_all, partition_all_next_pull.
      simpl. rewrite Ek. simpl. by destruct e.
    + change (py_list fuel (partition_init n (Ok <$> ys : scripted A) pad) =
        Some (Ok (map (fill_to (Z.to_nat n) pad) (chunks (Z.to_nat n) ys)), st)).
      rewrite Hst. change (denote (Ok <$> ys : scripted A)) with (scripted_values (Ok <$> ys)).
      rewrite (scripted_values_ok ys). by rewrite finish_pad.
  - eexists. split.
    + unfold py_next, toolz_partition_iterator, toolz_partition_next, toolz_partition_new.
      rewrite Ek. unfold zip_longest_next. simpl. rewrite decide_True by (right; done). reflexivity.
    + unfold exhausted. reflexivity.
Qed.

Lemma partition_toolz_after_fault_witness :
  (exists p1 st, py_next (partition_init 2 (Raise (PyException "ValueError") :: (Ok <$> [PyInt 1; PyInt 2; PyInt 3]) : scripted pyval) PyNone) =
       (Raise (PyException "ValueError"), p1) /\
     py_list 4 p1 = Some (Ok (map (fill_to 2 PyNone) (chunks (Z.to_nat 2) [PyInt 1; PyInt 2; PyInt 3])), st)) /\
  (exists t1, py_next (toolz_partition_new 2 (Raise (PyException "ValueError") :: (Ok <$> [PyInt 1; PyInt 2; PyInt 3]) : scripted pyval) (Some PyNone)) =
     (Raise (PyException "ValueError"), t1) /\ exhausted t1).
Proof.
  apply (partition_toolz_after_fault 2 [PyInt 1; PyInt 2; PyInt 3] PyNone (PyException "ValueError") 4);
    [lia|discriminate|discriminate|simpl; lia].
Defined.

End Toolz.
