(* ===== verification/Termination.v ===== *)
(** * Termination and eventual exhaustion of the chunkers

    Instances of the class [Terminating] of [Iterator] for [partition_all]
    and [partition], each with the measure of the source it owns: a
    returned chunk of [partition_all] is not empty, so at least one
    element was pulled and the source's measure went down; [partition]
    returns a value only when its [partition_all] did.  With them:
    termination of [list()] over both chunkers for any source that has a
    measure, and eventual exhaustion of [partition] over a list. *)

From stdpp Require Import base list strings.
From Stdlib Require Import ZArith Lia.
From S2P Require Import Prelude Iterator PartitionAll Partition.
Import SeqIter Scripted PartitionAll Partition.

Module Termination.
Section pull_measure.
Context {St A : Type} `{!PyIterator St A}.

(** Every element pulled lowers the source's measure, and no call of
    [next] raises it. *)
Lemma pull_measure `{!Terminating St A} k (items : list A) (src src' : St) r :
  pull k items src = (r, src') ->
  measure src' <= measure src /\
  (forall items', r = Ok items' -> measure src' + length items' <= measure src + length items).
Proof.
  revert items src. induction k as [|k IH]; intros items src; simpl.
  - intros Hp. injection Hp as <- <-. split; [lia|]. intros ? Hr. injection Hr as <-. lia.
  - destruct (py_next src) as [[x|e] s1] eqn:E; intros Hp.
    + pose proof (measure_ok _ _ _ E). destruct (IH _ _ Hp) as [H1 H2].
      split; [lia|]. intros items' Hr. specialize (H2 _ Hr).
      rewrite ?length_app in H2. simpl in H2. lia.
    + pose proof (measure_step _ _ _ E).
      destruct e; injection Hp as <- <-; split; try lia; intros ? Hr; try discriminate;
        injection Hr as <-; simpl; lia.
Qed.
End pull_measure.

(** [partition_all] terminates when its source does, with the source's
    measure: a returned chunk is not empty, so at least one element was
    pulled. *)
#[export] Program Instance partition_all_terminating {St A} `{!PyIterator St A}
    `{!Terminating St A} : Terminating (partition_all St) (list A) := {
  measure pa := measure (_seq pa)
}.
Next Obligation.
  intros St A ? ? pa r pa'. rewrite py_next_partition_all, partition_all_next_pull.
  destruct (pull _ _ _) as [[items|e] src'] eqn:E; [case_decide|];
    intros [= _ <-]; simpl; by destruct (pull_measure _ _ _ _ _ E).
Qed.
Next Obligation.
  intros St A ? ? pa c pa'. rewrite py_next_partition_all, partition_all_next_pull.
  destruct (pull _ _ _) as [[items|e] src'] eqn:E; [case_decide|]; intros [= Hc <-];
    try done. subst c. simpl. destruct (pull_measure _ _ _ _ _ E) as [_ Hm].
  specialize (Hm _ eq_refl). simpl in Hm. lia.
Qed.

(** [partition] terminates when its source does, with the measure of the
    source of its [partition_all]. *)
#[export] Program Instance partition_terminating {St A} `{!PyIterator St A}
    `{!EqDecision A} `{!PyStrValue A} `{!Terminating St A} :
    Terminating (partition St A) (list A) := {
  measure p := measure (_partition_all p)
}.
Next Obligation.
  intros St A ? ? ? ? [n pa pad] r p'. rewrite py_next_partition, partition_next_eq.
  destruct (py_next pa) as [[items|e] pa'] eqn:E; [repeat case_decide|];
    intros [= _ <-]; exact (measure_step _ _ _ E).
Qed.
Next Obligation.
  intros St A ? ? ? ? [n pa pad] c p'. rewrite py_next_partition, partition_next_eq.
  destruct (py_next pa) as [[items|e] pa'] eqn:E; [repeat case_decide|];
    intros [= _ <-]; exact (measure_ok _ _ _ E).
Qed.

(** ** Properties *)

(** C16. Termination: for any [n] (also [n <= 0]) and any source with a
    termination measure (a list, a scripted iterator, another chunker),
    [list(partition_all(n, source))] returns, raising or not, within
    [measure source + 1] calls of [__next__]. *)
Theorem partition_all_terminates {St A} `{!PyIterator St A} `{!Terminating St A}
    n (src : St) fuel :
  measure src < fuel -> exists o, py_list (A := list A) fuel (partition_all_init n src) = Some o.
Proof. intros Hm. by apply py_list_terminates. Qed.

Lemma partition_all_terminates_witness :
  exists o, py_list (A := list nat) 4 (partition_all_init 2
    ([Ok 1; Ok 2; Raise (PyException "KeyError"%string)] : scripted nat)) = Some o.
Proof. apply (partition_all_terminates 2 ([Ok 1; Ok 2; Raise (PyException "KeyError"%string)] : scripted nat) 4). simpl. lia. Defined.

(** C19. Termination: for any [n], any pad and any source with a
    termination measure, [list(partition(n, source, pad))] returns, raising
    or not, within [measure source + 1] calls of [__next__]. *)
Theorem partition_terminates {St A} `{!PyIterator St A} `{!EqDecision A} `{!PyStrValue A}
    `{!Terminating St A} n (src : St) (pad : A) fuel :
  measure src < fuel -> exists o, py_list fuel (partition_init n src pad) = Some o.
Proof. intros Hm. by apply py_list_terminates. Qed.

Lemma partition_terminates_witness :
  exists o, py_list 5 (partition_init 2
    ([Ok (PyInt 1); Raise StopIteration; Ok (PyInt 2); Ok (PyInt 3)] : scripted pyval) PyNone) = Some o.
Proof.
  apply (partition_terminates 2
    ([Ok (PyInt 1); Raise StopIteration; Ok (PyInt 2); Ok (PyInt 3)] : scripted pyval) PyNone 5).
  simpl. lia.
Defined.

(** C22. Liveness on a list: for any [n] and pad, after [length xs + 1]
    calls of [__next__], whatever each returned, [partition(n, xs, pad)]
    is exhausted for good. *)
Theorem partition_eventually_exhausted {A} `{!EqDecision A} `{!PyStrValue A}
    n (xs : list A) (pad : A) :
  exhausted (py_advance (A := list A) (S (length xs)) (partition_new n xs pad)).
Proof.
  apply (py_advance_exhausted
           (fun st => exists i, st = mk_partition n (mk_partition_all n (mk_seq_iterator xs i)) pad)).
  - intros ? r s' [i ->]. rewrite py_next_partition, partition_next_eq, py_next_partition_all,
      partition_all_next_seq. simpl. repeat case_decide; intros [= _ <-]; by eexists.
  - intros ? e s' [i ->]. apply partition_seq_raise_exhausted.
  - by exists 0.
  - simpl. lia.
Qed.
End Termination.
