(* ===== verification/Sharing.v ===== *)
(** * Consumers that share one source

    [partition_all.__init__] stores [_iter(seq)], and [_iter] hands an
    iterator of the package over unchanged, so the caller may keep a second
    reference to the very object the chunker pulls from, and several
    chunkers may be built over it.  The spec forbids pulling from the
    wrapped source through another handle (section 3), because it shifts
    the chunk boundaries.  This file models that aliasing: the mutable
    state all handles share is the source object alone (a [partition_all]
    never rebinds [_seq], and its [_n] is fixed), and a schedule is the
    explicit sequence of calls made through the handles.  Whatever the
    schedule, the elements of a list source are handed out once each, in
    order: what the calls returned, concatenated in time order, is the
    prefix of the list consumed so far. *)

From stdpp Require Import base list.
From Stdlib Require Import ZArith Lia.
From S2P Require Import Prelude Iterator PartitionAll.
Import SeqIter PartitionAll.

Module Sharing.

(** A handle on the shared source: a [partition_all] of chunk size [m]
    built over it, or the caller's own reference to it. *)
Inductive handle :=
| Chunk (m : Z)
| Direct.

#[export] Instance handle_eq_dec : EqDecision handle.
Proof. solve_decision. Defined.

Section shared.
Context {St A : Type} `{!PyIterator St A}.

(** One call of [next] through a handle, on the shared source; an
    element returned by a direct call is recorded as a one-element list. *)
Definition handle_next (h : handle) : PyM St (list A) :=
  fun src =>
    match h with
    | Chunk m => let '(r, pa') := partition_all_next (mk_partition_all m src) in (r, _seq pa')
    | Direct => let '(r, src') := py_next src in (res_map (fun x => [x]) r, src')
    end.

(** A schedule, run on the shared source: the outcomes in time order. *)
Fixpoint run_schedule (sched : list handle) (src : St) : list (res (list A)) * St :=
  match sched with
  | [] => ([], src)
  | h :: sched' =>
      let '(r, src1) := handle_next h src in
      let '(rs, src2) := run_schedule sched' src1 in (r :: rs, src2)
  end.
End shared.

(** The values the calls of a schedule returned, in time order. *)
Definition returned {B} (rs : list (res B)) : list B :=
  omap (fun r => match r with Ok b => Some b | Raise _ => None end) rs.

(** One call through any handle on a list source at position [i] hands
    out the next [k] elements for some [k], and moves the position by [k]. *)
Lemma handle_next_seq {A} h (xs : list A) i :
  exists k, handle_next h (mk_seq_iterator xs i) =
    ((if decide (take k (drop i xs) = []) then Raise StopIteration else Ok (take k (drop i xs))),
     mk_seq_iterator xs (i + length (take k (drop i xs)))).
Proof.
  destruct h as [m|]; simpl.
  - exists (Z.to_nat m). by rewrite partition_all_next_seq.
  - exists 1. rewrite py_next_seq. unfold seq_iterator_next. simpl.
    destruct (xs !! i) as [x|] eqn:Hx.
    + rewrite (drop_S _ x) by done. simpl. by rewrite Nat.add_1_r.
    + rewrite drop_ge by (by apply lookup_ge_None). simpl. by rewrite Nat.add_0_r.
Qed.

(** From position [i], a schedule hands out the elements from [i] to
    the final position, in order. *)
Lemma run_schedule_seq {A} sched (xs : list A) i :
  i <= length xs ->
  exists j, (run_schedule sched (mk_seq_iterator xs i)).2 = mk_seq_iterator xs j /\
    i <= j <= length xs /\
    concat (returned (run_schedule sched (mk_seq_iterator xs i)).1) = take (j - i) (drop i xs).
Proof.
  revert i. induction sched as [|h sched IH]; intros i Hi; simpl.
  { exists i. rewrite Nat.sub_diag. split_and!; [done|lia|lia|done]. }
  destruct (handle_next_seq h xs i) as [k ->].
  set (c := take k (drop i xs)).
  assert (Hc : i + length c <= length xs) by (subst c; rewrite length_take, length_drop; lia).
  destruct (IH (i + length c) Hc) as (j & Hst & Hj & Hcat).
  destruct (run_schedule sched _) as [rs src2]. simpl in *.
  exists j. split_and!; [done|lia|lia|].
  assert (Hd : drop (i + length c) xs = drop (length c) (drop i xs)) by by rewrite drop_drop.
  rewrite Hd in Hcat. case_decide as Hnil; simpl; rewrite Hcat.
  - rewrite Hnil. simpl. by rewrite Nat.add_0_r.
  - assert (Hct : c = take (length c) (drop i xs)).
    { subst c. rewrite length_take, length_drop.
      destruct (decide (k <= length xs - i)); [f_equal; lia|].
      rewrite !take_ge by (rewrite length_drop; lia). done. }
    rewrite Hct at 1. rewrite take_take_drop. f_equal. lia.
Qed.

(** ** Properties *)

(** C29. Sharing the source: whatever schedule of [next] calls is made
    through chunkers of any sizes (also [m <= 0]) and the caller's own
    reference, all built over the one iterator [_iter(xs)], no element is
    lost, duplicated or reordered: the values returned, concatenated in
    time order, are the prefix of [xs] up to the shared position.  Chunk
    boundaries, though, follow the interleaving, not multiples of [n]. *)
Theorem partition_all_shared_source {A} (xs : list A) sched :
  exists j, (run_schedule sched (_iter xs)).2 = mk_seq_iterator xs j /\ j <= length xs /\
    concat (returned (run_schedule sched (_iter xs)).1) = take j xs.
Proof.
  change (_iter xs) with (mk_seq_iterator xs 0).
  destruct (run_schedule_seq sched xs 0) as (j & Hst & Hj & Hcat); [lia|].
  exists j. split_and!; [done|lia|]. rewrite Hcat. by rewrite Nat.sub_0_r, drop_0.
Qed.

End Sharing.
