(* ===== verification/Pickle.v ===== *)
(** * Pickling the iterators: their [__dict__] snapshots

    [BaseItertool] adds no pickling code: an instance is pickled by Python's
    default protocol, which records its class and its [__dict__].  [pobj]
    is that record, as a tree: ints, lists, the user's elements (pickled
    by their own rules, kept abstract as [PElem]) and instances with their
    attribute dicts.  The interface [Picklable] is what a component offers
    to the pickler; [PickleRoundtrip] is its law, that restoring a snapshot
    gives back the object.  Instances: the list iterator of [_iter] (spec
    modelled), [partition_all] (attributes [_n], [_seq]) and [partition]
    ([_n], [_partition_all], [_pad]), each built on the instance of the
    object it owns.  The list iterator's snapshot records the list and the
    index, as CPython's [list_iterator.__reduce__] does.  The wire format
    is not modelled. *)

From stdpp Require Import base list strings.
From Stdlib Require Import ZArith Lia.
From S2P Require Import Prelude Iterator PartitionAll Partition Refinement.
Import SeqIter PartitionAll Partition Refinement.

Module Pickle.
Inductive pobj (A : Type) :=
| PInt (z : Z)
| PElem (a : A)
| PList (xs : list (pobj A))
| PInst (cls : string) (dict : list (string * pobj A)).
Arguments PInt {A} z.
Arguments PElem {A} a.
Arguments PList {A} xs.
Arguments PInst {A} cls dict.

Section decoders.
Context {A : Type}.

(** [obj.__dict__[key]]: the first entry with that key. *)
Fixpoint dict_get (key : string) (d : list (string * pobj A)) : option (pobj A) :=
  match d with
  | [] => None
  | (k, v) :: d' => if decide (k = key) then Some v else dict_get key d'
  end.

Definition as_int (o : pobj A) : option Z :=
  match o with PInt z => Some z | _ => None end.

Definition as_elem (o : pobj A) : option A :=
  match o with PElem a => Some a | _ => None end.

Definition as_elems (o : pobj A) : option (list A) :=
  match o with PList xs => mapM as_elem xs | _ => None end.

(** The attribute dict of an instance of class [cls]. *)
Definition as_inst (cls : string) (o : pobj A) : option (list (string * pobj A)) :=
  match o with
  | PInst c d => if decide (c = cls) then Some d else None
  | _ => None
  end.
End decoders.

(** What a component offers the pickler: its snapshot and its restore. *)
Class Picklable (A S : Type) := {
  pickle : S -> pobj A;
  unpickle : pobj A -> option S
}.

(** Its law: restoring a snapshot gives back the object. *)
Class PickleRoundtrip (A S : Type) `{!Picklable A S} :=
  pickle_roundtrip : forall s : S, unpickle (pickle s) = Some s.

(** ** The list iterator of [_iter] *)
#[export] Instance seq_iterator_picklable {A} : Picklable A (seq_iterator A) := {
  pickle it := PInst "sequence_iterator"
    [("_sequence", PList (PElem <$> _sequence it));
     ("_position", PInt (Z.of_nat (_position it)))];
  unpickle o :=
    d ← as_inst "sequence_iterator" o;
    xs ← dict_get "_sequence" d ≫= as_elems;
    p ← dict_get "_position" d ≫= as_int;
    if decide (0 <= p)%Z then Some (mk_seq_iterator xs (Z.to_nat p)) else None
}.

#[export] Instance seq_iterator_roundtrip {A} : PickleRoundtrip A (seq_iterator A).
Proof.
  intros [xs p]. simpl.
  rewrite (mapM_fmap_Some as_elem PElem xs) by done. simpl.
  rewrite decide_True by lia. by rewrite Nat2Z.id.
Qed.

(** ** [partition_all]: [_n] and the snapshot of [_seq] *)
#[export] Instance partition_all_picklable {A S} `{!Picklable A S} :
    Picklable A (partition_all S) := {
  pickle pa := PInst "partition_all"
    [("_n", PInt (PartitionAll._n pa)); ("_seq", pickle (_seq pa))];
  unpickle o :=
    d ← as_inst "partition_all" o;
    n ← dict_get "_n" d ≫= as_int;
    seq ← dict_get "_seq" d ≫= unpickle;
    Some (mk_partition_all n seq)
}.

#[export] Instance partition_all_roundtrip {A S} `{!Picklable A S} `{!PickleRoundtrip A S} :
  PickleRoundtrip A (partition_all S).
Proof. intros [n seq]. simpl. by rewrite pickle_roundtrip. Qed.

(** ** [partition]: [_n], the snapshot of [_partition_all], and [_pad] *)
#[export] Instance partition_picklable {A S} `{!Picklable A S} :
    Picklable A (partition S A) := {
  pickle p := PInst "partition"
    [("_n", PInt (Partition._n p)); ("_partition_all", pickle (_partition_all p));
     ("_pad", PElem (_pad p))];
  unpickle o :=
    d ← as_inst "partition" o;
    n ← dict_get "_n" d ≫= as_int;
    pa ← dict_get "_partition_all" d ≫= unpickle;
    pad ← dict_get "_pad" d ≫= as_elem;
    Some (mk_partition n pa pad)
}.

#[export] Instance partition_roundtrip {A S} `{!Picklable A S} `{!PickleRoundtrip A S} :
  PickleRoundtrip A (partition S A).
Proof. intros [n [m seq] pad]. simpl. by rewrite pickle_roundtrip. Qed.

(** ** Resumability *)

(** C15. Resumability through pickling, against the reference output:
    take [partition(n, xs, pad)] with [n > 0], let it return the tuples
    [cs], snapshot it and restore the snapshot.  The restored object
    terminates, and what it lists is exactly the rest of
    [finish n pad (chunks n xs)] after [cs]: the tuples the uninterrupted
    object still owed, none repeated and none lost. *)
Theorem partition_pickle_resume {A} `{!EqDecision A} `{!PyStrValue A}
    n (xs : list A) (pad : A) cs st fuel :
  (0 < n)%Z -> length xs < fuel -> yields (partition_new n xs pad) cs st ->
  exists st' rest st'',
    unpickle (pickle st) = Some st' /\
    py_list fuel st' = Some (Ok rest, st'') /\
    cs ++ rest = finish n pad (chunks (Z.to_nat n) xs).
Proof.
  intros Hn Hf Hy.
  destruct (denotes_yields_prefix (A := list A) (partition_new n xs pad) st cs) as [Hv Hd];
    [repeat split; done|done|].
  assert (Hlen : length (denote (A := list A) st) < fuel).
  { apply (f_equal length) in Hd. rewrite length_app in Hd.
    pose proof (length_chunks_le (Z.to_nat n) xs ltac:(lia)).
    pose proof (length_finish_le n pad (chunks (Z.to_nat n) xs)).
    change (denote (partition_new n xs pad)) with (finish n pad (chunks (Z.to_nat n) (drop 0 xs))) in Hd.
    rewrite drop_0 in Hd. lia. }
  destruct (denotes_py_list st fuel Hv Hlen) as (st'' & Hst & _).
  exists st, (denote (A := list A) st), st''. split_and!; [apply pickle_roundtrip|exact Hst|exact Hd].
Qed.

Lemma partition_pickle_resume_witness :
  exists st' rest st'',
    unpickle (pickle (mk_partition 2 (mk_partition_all 2 (mk_seq_iterator [PyInt 1; PyInt 2; PyInt 3] 2)) PyNone)) = Some st' /\
    py_list 4 st' = Some (Ok rest, st'') /\
    [[PyInt 1; PyInt 2]] ++ rest = finish 2 PyNone (chunks (Z.to_nat 2) [PyInt 1; PyInt 2; PyInt 3]).
Proof.
  apply (partition_pickle_resume 2 [PyInt 1; PyInt 2; PyInt 3] PyNone [[PyInt 1; PyInt 2]]); [lia|simpl; lia|].
  econstructor; [reflexivity|constructor].
Defined.
End Pickle.
